(** * navigate-connector: the date-range fetch-and-export pipeline

    A shallow embedding of [get_appointments.py] (the projection of raw
    appointment records, the CSV artifact writer, the per-day fetcher and
    the range scheduler of [main]) and of
    [NavigateAPI.get_appointments] from [navigate_connector/navigate_api.py],
    followed by the properties of the pipeline.

    Python values are embedded as JSON-shaped data, Python exceptions as
    an explicit result type, and logging, printing and file-system calls
    as a trace of events.  The network and the file system are
    collaborators of the program: they appear as environment records
    whose answers the program cannot influence. *)

From Stdlib Require Import ZArith List String Ascii Bool Lia SpecFloat.
From Stdlib Require Import DecimalString.
From Equations Require Import Equations.
Import ListNotations.

Set Warnings "-register-all".

Open Scope list_scope.
Open Scope string_scope.
Open Scope Z_scope.

(** ** Python run-time values and exceptions *)

Module Py.

(** What [json.loads] can produce.  A dict is kept as an association
    list in insertion order, which is the order in which it is iterated;
    a decoded dict has no repeated key, and [get] and [in] look at the
    first binding of a key.  A float keeps its IEEE shape, which is all
    that truthiness inspects. *)
Inductive value : Type :=
| VNone
| VBool (b : bool)
| VInt (z : Z)
| VFloat (f : spec_float)
| VStr (s : string)
| VList (items : list value)
| VDict (entries : list (string * value)).

(** The part of the exception hierarchy below [Exception] that the
    program meets.  [KeyboardInterrupt] and [SystemExit] are not below
    [Exception] and are outside the model. *)
Inductive exn_class : Type :=
| AttributeError
| TypeError
| ValueError
| OverflowError
| OSError
| RequestException
| ConnectionError
| HTTPError
| Timeout
| InvalidJSONError
| OtherException.

Record exn : Type := Exn { exn_cls : exn_class; exn_msg : string }.

(** [isinstance(e, requests.RequestException)] *)
Definition is_RequestException (e : exn) : bool :=
  match exn_cls e with
  | RequestException | ConnectionError | HTTPError | Timeout
  | InvalidJSONError => true
  | _ => false
  end.

Inductive result (A : Type) : Type :=
| Ok (a : A)
| Raise (e : exn).
Arguments Ok {A} a.
Arguments Raise {A} e.

Definition bind {A B} (c : result A) (k : A -> result B) : result B :=
  match c with
  | Ok a => k a
  | Raise e => Raise e
  end.

(** [type(v).__name__] *)
Definition type_name (v : value) : string :=
  match v with
  | VNone => "NoneType"
  | VBool _ => "bool"
  | VInt _ => "int"
  | VFloat _ => "float"
  | VStr _ => "str"
  | VList _ => "list"
  | VDict _ => "dict"
  end.

(** [bool(v)], the test of an [if v:] *)
Definition truthy (v : value) : bool :=
  match v with
  | VNone => false
  | VBool b => b
  | VInt z => negb (z =? 0)
  | VFloat f => match f with S754_zero _ => false | _ => true end
  | VStr s => negb (s =? EmptyString)%string
  | VList items => match items with [] => false | _ => true end
  | VDict entries => match entries with [] => false | _ => true end
  end.

Fixpoint assoc (key : string) (entries : list (string * value)) : option value :=
  match entries with
  | [] => None
  | (k, v) :: rest => if (k =? key)%string then Some v else assoc key rest
  end.

(** [obj.get(key, default)]: only a dict has the method. *)
Definition get (obj : value) (key : string) (default : value) : result value :=
  match obj with
  | VDict entries =>
      Ok (match assoc key entries with Some v => v | None => default end)
  | _ => Raise (Exn AttributeError
                  ("'" ++ type_name obj ++ "' object has no attribute 'get'"))
  end.

(** [needle in hay] on two strs *)
Fixpoint is_substring (needle hay : string) : bool :=
  prefix needle hay ||
  match hay with
  | EmptyString => false
  | String _ rest => is_substring needle rest
  end.

Definition is_str (key : string) (v : value) : bool :=
  match v with
  | VStr s => (s =? key)%string
  | _ => false
  end.

(** [key in container] for a str [key] *)
Definition contains (key : string) (container : value) : result bool :=
  match container with
  | VDict entries =>
      Ok (match assoc key entries with Some _ => true | None => false end)
  | VList items => Ok (existsb (is_str key) items)
  | VStr s => Ok (is_substring key s)
  | _ => Raise (Exn TypeError
                  ("argument of type '" ++ type_name container
                   ++ "' is not iterable"))
  end.

(** The elements a [for] loop or a comprehension visits. *)
Definition iter (v : value) : result (list value) :=
  match v with
  | VList items => Ok items
  | VDict entries => Ok (map (fun kv => VStr (fst kv)) entries)
  | VStr s => Ok (map (fun c => VStr (String c EmptyString))
                      (list_ascii_of_string s))
  | _ => Raise (Exn TypeError
                  ("'" ++ type_name v ++ "' object is not iterable"))
  end.

Definition nat_to_string (n : nat) : string :=
  NilZero.string_of_uint (Nat.to_uint n).

(** [sep.join(items)] on a list: every item has to be a str. *)
Fixpoint join_from (index : nat) (sep : string) (items : list value)
  : result string :=
  match items with
  | [] => Ok EmptyString
  | VStr s :: rest =>
      match rest with
      | [] => Ok s
      | _ => bind (join_from (S index) sep rest)
                  (fun tail => Ok (s ++ sep ++ tail))
      end
  | v :: _ =>
      Raise (Exn TypeError
               ("sequence item " ++ nat_to_string index
                ++ ": expected str instance, " ++ type_name v ++ " found"))
  end.

Definition join (sep : string) (items : list value) : result string :=
  join_from 0 sep items.

(** [s.replace(old, new)] for one-character [old] and [new] *)
Fixpoint replace_char (old new : ascii) (s : string) : string :=
  match s with
  | EmptyString => EmptyString
  | String c rest =>
      String (if Ascii.eqb c old then new else c) (replace_char old new rest)
  end.

End Py.

Export Py.

Declare Scope result_scope.
Notation "x <- c ;; k" := (bind c (fun x => k))
  (at level 61, c at next level, right associativity) : result_scope.
Open Scope result_scope.

(** ** [datetime]: the calendar arithmetic the scheduler relies on *)

Module DateTime.

(** A naive [datetime] is kept as the number of microseconds since the
    midnight that opens proleptic-Gregorian day 0, so that
    0001-01-01T00:00 is [1 * DAY]; a [timedelta] is a number of
    microseconds.  Comparison of datetimes is comparison of these
    numbers. *)
Definition datetime : Type := Z.

(** [timedelta(days=1)] *)
Definition DAY : Z := 86400000000.

(** [date.max.toordinal()], the ordinal of 9999-12-31 *)
Definition MAXORDINAL : Z := 3652059.

Definition toordinal (t : datetime) : Z := t / DAY.

Definition is_leap (y : Z) : bool :=
  (y mod 4 =? 0) && (negb (y mod 100 =? 0) || (y mod 400 =? 0)).

Definition days_before_year (y : Z) : Z :=
  let y1 := y - 1 in
  y1 * 365 + y1 / 4 - y1 / 100 + y1 / 400.

Definition DAYS_IN_MONTH : list Z :=
  [-1; 31; 28; 31; 30; 31; 30; 31; 31; 30; 31; 30; 31].

Definition DAYS_BEFORE_MONTH : list Z :=
  [-1; 0; 31; 59; 90; 120; 151; 181; 212; 243; 273; 304; 334].

Definition table (t : list Z) (i : Z) : Z := nth (Z.to_nat i) t 0.

Definition days_in_month (y m : Z) : Z :=
  if (m =? 2) && is_leap y then 29 else table DAYS_IN_MONTH m.

Definition days_before_month (y m : Z) : Z :=
  table DAYS_BEFORE_MONTH m + (if (2 <? m) && is_leap y then 1 else 0).

Definition ymd2ord (y m d : Z) : Z :=
  days_before_year y + days_before_month y m + d.

Definition DI400Y : Z := days_before_year 401.
Definition DI100Y : Z := days_before_year 101.
Definition DI4Y : Z := days_before_year 5.

Definition ord2ymd (ordinal : Z) : Z * Z * Z :=
  let n := ordinal - 1 in
  let n400 := n / DI400Y in
  let n := n mod DI400Y in
  let year := n400 * 400 + 1 in
  let n100 := n / DI100Y in
  let n := n mod DI100Y in
  let n4 := n / DI4Y in
  let n := n mod DI4Y in
  let n1 := n / 365 in
  let n := n mod 365 in
  let year := year + n100 * 100 + n4 * 4 + n1 in
  if (n1 =? 4) || (n100 =? 4) then (year - 1, 12, 31)
  else
    let leapyear := (n1 =? 3) && (negb (n4 =? 24) || (n100 =? 3)) in
    let month := Z.shiftr (n + 50) 5 in
    let preceding :=
      table DAYS_BEFORE_MONTH month
      + (if (2 <? month) && leapyear then 1 else 0) in
    if n <? preceding then
      let month := month - 1 in
      let preceding :=
        preceding
        - (table DAYS_IN_MONTH month
           + (if (month =? 2) && leapyear then 1 else 0)) in
      (year, month, n - preceding + 1)
    else (year, month, n - preceding + 1).

(** [t + delta]: the result has to stay within [date.min .. date.max]. *)
Definition add (t : datetime) (delta : Z) : result datetime :=
  let r := t + delta in
  if (1 <=? toordinal r) && (toordinal r <=? MAXORDINAL) then Ok r
  else Raise (Exn OverflowError "date value out of range").

(** *** [strptime(s, "%m/%d/%Y")]

    The format compiles to the regular expression
    [(1[0-2]|0[1-9]|[1-9])/(3[0-1]|[1-2]\d|0[1-9]|[1-9]| [1-9])/(\d\d\d\d)],
    which has to match the whole string.  Each group is followed by a
    literal that no alternative of the group can start with, so trying
    the alternatives in order and keeping the first that matches is what
    the backtracking matcher finds.  Strings are sequences of ASCII
    characters here. *)

Definition digit (c : ascii) : option Z :=
  let n := Z.of_nat (nat_of_ascii c) in
  if (48 <=? n) && (n <=? 57) then Some (n - 48) else None.

Definition orelse {A} (x y : option A) : option A :=
  match x with
  | Some _ => x
  | None => y
  end.

(** two digits [a b] accepted by [ok], read as the number [10a + b] *)
Definition two_digits (ok : Z -> Z -> bool) (s : string) : option (Z * string) :=
  match s with
  | String a (String b rest) =>
      match digit a, digit b with
      | Some x, Some y => if ok x y then Some (10 * x + y, rest) else None
      | _, _ => None
      end
  | _ => None
  end.

Definition one_digit (ok : Z -> bool) (s : string) : option (Z * string) :=
  match s with
  | String a rest =>
      match digit a with
      | Some x => if ok x then Some (x, rest) else None
      | None => None
      end
  | _ => None
  end.

Definition space_digit (ok : Z -> bool) (s : string) : option (Z * string) :=
  match s with
  | String " " rest => one_digit ok rest
  | _ => None
  end.

Definition slash (s : string) : option string :=
  match s with
  | String "/" rest => Some rest
  | _ => None
  end.

Definition group_m (s : string) : option (Z * string) :=
  orelse (two_digits (fun x y => (x =? 1) && (y <=? 2)) s)
 (orelse (two_digits (fun x y => (x =? 0) && (1 <=? y)) s)
         (one_digit (fun x => 1 <=? x) s)).

Definition group_d (s : string) : option (Z * string) :=
  orelse (two_digits (fun x y => (x =? 3) && (y <=? 1)) s)
 (orelse (two_digits (fun x _ => (1 <=? x) && (x <=? 2)) s)
 (orelse (two_digits (fun x y => (x =? 0) && (1 <=? y)) s)
 (orelse (one_digit (fun x => 1 <=? x) s)
         (space_digit (fun x => 1 <=? x) s)))).

Definition group_Y (s : string) : option (Z * string) :=
  match two_digits (fun _ _ => true) s with
  | Some (hi, rest) =>
      match two_digits (fun _ _ => true) rest with
      | Some (lo, rest') => Some (100 * hi + lo, rest')
      | None => None
      end
  | None => None
  end.

Definition match_mdY (s : string) : option (Z * Z * Z * string) :=
  match group_m s with
  | Some (m, s1) =>
      match slash s1 with
      | Some s2 =>
          match group_d s2 with
          | Some (d, s3) =>
              match slash s3 with
              | Some s4 =>
                  match group_Y s4 with
                  | Some (y, rest) => Some (m, d, y, rest)
                  | None => None
                  end
              | None => None
              end
          | None => None
          end
      | None => None
      end
  | None => None
  end.

Definition strptime_mdY (s : string) : result datetime :=
  match match_mdY s with
  | None =>
      Raise (Exn ValueError
               ("time data '" ++ s ++ "' does not match format '%m/%d/%Y'"))
  | Some (m, d, y, EmptyString) =>
      if y <? 1 then
        Raise (Exn ValueError
                 ("year " ++ NilZero.string_of_int (Z.to_int y)
                  ++ " is out of range"))
      else if days_in_month y m <? d then
        Raise (Exn ValueError "day is out of range for month")
      else Ok (ymd2ord y m d * DAY)
  | Some (_, _, _, rest) =>
      Raise (Exn ValueError ("unconverted data remains: " ++ rest))
  end.

(** *** [t.strftime("%m/%d/%Y")]: month and day on two digits, the year
    on four, as documented for [%Y]. *)

Definition digit_char (d : Z) : ascii := ascii_of_nat (Z.to_nat (48 + d)).

Definition pad2 (n : Z) : string :=
  String (digit_char (n / 10 mod 10))
 (String (digit_char (n mod 10)) EmptyString).

Definition pad4 (n : Z) : string := pad2 (n / 100) ++ pad2 (n mod 100).

Definition strftime_mdY (t : datetime) : string :=
  let '(y, m, d) := ord2ymd (toordinal t) in
  pad2 m ++ "/" ++ pad2 d ++ "/" ++ pad4 y.

End DateTime.

Import DateTime.


(** ** Observable effects

    What a run does to the outside world is recorded as a trace: lines
    printed on standard output, log records, directories created and CSV
    files written.  A computation yields its trace together with the
    value it returns or the exception it raises. *)

Module Effects.

(** One row of the exported table: the dict built for each appointment. *)
Record FlatRow : Type := {
  appointment_id : value;
  location : value;
  organizer_primary_id : value;
  appointment_type : value;
  start_time : value;
  scheduled_student_services : value;
  is_no_show : value;
  is_cancelled : value;
  attendees_primary_ids : string
}.

Inductive level : Type := INFO | ERROR.

Inductive event : Type :=
| Print (line : string)
| Log (lvl : level) (msg : string)
| MakeDirs (dir : string)
| ToCsv (path : string) (rows : list FlatRow).

(** A computation whose visible steps are of type [E]. *)
Definition Eff (E A : Type) : Type := (list E * result A)%type.

Definition ret {E A} (a : A) : Eff E A := ([], Ok a).

Definition raise {E A} (e : exn) : Eff E A := ([], Raise e).

Definition lift {E A} (r : result A) : Eff E A := ([], r).

Definition emit {E} (ev : E) : Eff E unit := ([ev], Ok tt).

Definition bindM {E A B} (c : Eff E A) (k : A -> Eff E B) : Eff E B :=
  match c with
  | (tr, Ok a) => let (tr', r) := k a in ((tr ++ tr')%list, r)
  | (tr, Raise e) => (tr, Raise e)
  end.

(** [try: body / except <caught> as e: handler e] *)
Definition try_except {E A} (caught : exn -> bool) (body : Eff E A)
    (handler : exn -> Eff E A) : Eff E A :=
  match body with
  | (tr, Raise e) =>
      if caught e then let (tr', r) := handler e in ((tr ++ tr')%list, r)
      else (tr, Raise e)
  | done => done
  end.

(** [except Exception]: every exception of the model is one. *)
Definition Exception (e : exn) : bool := true.

Definition trace {E A} (c : Eff E A) : list E := fst c.

Definition outcome {E A} (c : Eff E A) : result A := snd c.

(** Code that does nothing visible but print: its steps are the lines. *)
Definition Stdout : Type -> Type := Eff string.

(** The script: it prints, logs and touches the file system. *)
Definition M : Type -> Type := Eff event.

Definition printing {A} (c : Stdout A) : M A := (map Print (fst c), snd c).

Definition logging_info (msg : string) : M unit := emit (Log INFO msg).

Definition logging_error (msg : string) : M unit := emit (Log ERROR msg).

End Effects.

Export Effects.

Declare Scope effect_scope.
Notation "x <~ c ;; k" := (bindM c (fun x => k))
  (at level 61, c at next level, right associativity) : effect_scope.
Notation "c ;;; k" := (bindM c (fun _ => k))
  (at level 61, right associativity) : effect_scope.
Open Scope effect_scope.

(** ** [navigate_api.py]: the concrete fetch capability *)

Module NavigateAPI.

(** What the program looks at in a [requests.Response]. *)
Record Response : Type := {
  status_code : Z;
  reason : string;
  url : string;
  json : result value          (* what [response.json()] does *)
}.

(** [requests.get(url, params=..., auth=HTTPBasicAuth(user, key))]: the
    network answers with a response or the call raises. *)
Definition Requests : Type :=
  string -> list (string * string) -> string * string -> result Response.

Record t : Type := {
  service_name : string;
  base_url : string;
  username : string;
  api_key : string
}.

Definition status_text (r : Response) : string :=
  NilZero.string_of_int (Z.to_int (status_code r)).

(** [response.raise_for_status()] *)
Definition raise_for_status (r : Response) : result unit :=
  if (400 <=? status_code r) && (status_code r <? 500) then
    Raise (Exn HTTPError (status_text r ++ " Client Error: " ++ reason r
                          ++ " for url: " ++ url r))
  else if (500 <=? status_code r) && (status_code r <? 600) then
    Raise (Exn HTTPError (status_text r ++ " Server Error: " ++ reason r
                          ++ " for url: " ++ url r))
  else Ok tt.

Definition print (line : string) : Stdout unit := emit line.

(** [not s] for a str *)
Definition blank (s : string) : bool := (s =? EmptyString)%string.

Definition get_appointments (requests_get : Requests) (self : t)
    (kwargs : list (string * string)) : Stdout value :=
  if blank (username self) || blank (api_key self) then
    print "Credentials are not loaded. Please load or update credentials." ;;;
    ret VNone
  else
    try_except is_RequestException
      (response <~ lift (requests_get (base_url self ++ "/appointments")
                                      kwargs (username self, api_key self)) ;;
       lift (raise_for_status response) ;;;
       lift (json response))
      (fun e =>
         print ("An error occurred: " ++ exn_msg e) ;;;
         ret VNone).

End NavigateAPI.

(** ** [get_appointments.py] *)

Module GetAppointments.

(** The object [main] hands to the day tasks: anything with a
    [get_appointments(begin_date=..., end_date=...)] method.  A call
    may print; it writes no log record and no file. *)
Record Connector : Type := {
  get_appointments : string -> string -> Stdout value
}.

Definition print (line : string) : M unit := emit (Print line).

(** The answers of the file system to [os.path.exists], [os.makedirs]
    and [DataFrame.to_csv]. *)
Record FileSystem : Type := {
  path_exists : string -> bool;
  makedirs : string -> result unit;
  to_csv : string -> list FlatRow -> result unit
}.

Definition os_makedirs (fs : FileSystem) (dir : string) : M unit :=
  lift (makedirs fs dir) ;;; emit (MakeDirs dir).

Definition df_to_csv (fs : FileSystem) (path : string) (df : list FlatRow)
  : M unit :=
  lift (to_csv fs path df) ;;; emit (ToCsv path df).

(** [a.endswith('/')] *)
Definition ends_with_sep (a : string) : bool :=
  (substring (String.length a - 1) 1 a =? "/")%string.

(** [os.path.join(a, b)] of [posixpath] *)
Definition os_path_join (a b : string) : string :=
  if prefix "/" b then b
  else if (a =? EmptyString)%string || ends_with_sep a then a ++ b
  else a ++ "/" ++ b.

(** The comprehension
    [[attendee.get('primary_id') for attendee in attendees
      if 'primary_id' in attendee]] over the items of [attendees]. *)
Fixpoint primary_ids (attendees : list value) : result (list value) :=
  match attendees with
  | [] => Ok []
  | attendee :: rest =>
      has_id <- contains "primary_id" attendee ;;
      if has_id : bool then
        id <- get attendee "primary_id" VNone ;;
        ids <- primary_ids rest ;;
        Ok (id :: ids)
      else primary_ids rest
  end.

(** The body of the loop of [extract_appointment_data]: the dict that
    is appended for one [appointment]. *)
Definition appointment_row (appointment : value) : result FlatRow :=
  appointment_id <- get appointment "id" VNone ;;
  location <- get appointment "location" VNone ;;
  organizer <- get appointment "organizer" (VDict []) ;;
  organizer_primary_id <- get organizer "primary_id" VNone ;;
  appointment_type <- get appointment "type" VNone ;;
  start_time <- get appointment "start_time" VNone ;;
  scheduled_student_services <-
    get appointment "scheduled_student_services" VNone ;;
  is_no_show <- get appointment "is_no_show" VNone ;;
  is_cancelled <- get appointment "is_cancelled" VNone ;;
  attendees <- get appointment "attendees" (VList []) ;;
  items <- iter attendees ;;
  attendees_primary_ids <- primary_ids items ;;
  joined <- join "," attendees_primary_ids ;;
  Ok {| appointment_id := appointment_id;
        location := location;
        organizer_primary_id := organizer_primary_id;
        appointment_type := appointment_type;
        start_time := start_time;
        scheduled_student_services := scheduled_student_services;
        is_no_show := is_no_show;
        is_cancelled := is_cancelled;
        attendees_primary_ids := joined |}.

(** The loop itself, with [extracted_data] as the list built so far. *)
Fixpoint extract_loop (appointments : list value)
    (extracted_data : list FlatRow) : result (list FlatRow) :=
  match appointments with
  | [] => Ok extracted_data
  | appointment :: rest =>
      row <- appointment_row appointment ;;
      extract_loop rest (extracted_data ++ [row])%list
  end.

Definition extract_appointment_data (appointments : value)
  : result (list FlatRow) :=
  items <- iter appointments ;;
  extract_loop items [].

Definition filename_of (start_date end_date : string) : string :=
  let safe_start_date := replace_char "/" "_" start_date in
  let safe_end_date := replace_char "/" "_" end_date in
  "apmts_" ++ safe_start_date ++ "_" ++ safe_end_date ++ ".csv".

Definition export_to_csv (fs : FileSystem) (data : list FlatRow)
    (start_date end_date save_dir : string) : M unit :=
  let df := data in
  (if negb (path_exists fs save_dir) then os_makedirs fs save_dir
   else ret tt) ;;;
  let filename := filename_of start_date end_date in
  let full_file_path := os_path_join save_dir filename in
  df_to_csv fs full_file_path df ;;;
  logging_info ("Data exported to " ++ full_file_path).

(** The default of [save_dir] *)
Definition default_save_dir : string := "data/appointments".

(** The texts of the log records of the day task. *)
Definition range_text (start_date end_date : string) : string :=
  "from " ++ start_date ++ " to " ++ end_date.

Definition starting_msg (start_date end_date : string) : string :=
  "Starting API call for appointments " ++ range_text start_date end_date.

Definition successful_msg (start_date end_date : string) : string :=
  "API call successful for appointments " ++ range_text start_date end_date.

Definition no_appointments_msg (start_date end_date : string) : string :=
  "No appointments found for the date range "
  ++ range_text start_date end_date ++ ". No CSV file created.".

Definition empty_list_msg (start_date end_date : string) : string :=
  "API returned an empty list for the date range "
  ++ range_text start_date end_date ++ ". No CSV file created.".

Definition error_msg (start_date end_date : string) (e : exn) : string :=
  "Error during API call for the date range "
  ++ range_text start_date end_date ++ ": " ++ exn_msg e.

(** The [try] block of the day task. *)
Definition day_body (fs : FileSystem) (connector : Connector)
    (start_date end_date : string) : M unit :=
  logging_info (starting_msg start_date end_date) ;;;
  response <~ printing (get_appointments connector start_date end_date) ;;
  if truthy response then
    logging_info (successful_msg start_date end_date) ;;;
    extracted_data <~ lift (extract_appointment_data response) ;;
    match extracted_data with
    | _ :: _ =>
        export_to_csv fs extracted_data start_date end_date default_save_dir
    | [] => logging_info (no_appointments_msg start_date end_date)
    end
  else logging_info (empty_list_msg start_date end_date).

Definition get_and_export_appointments_for_date (fs : FileSystem)
    (connector : Connector) (start_date end_date : string) : M unit :=
  try_except Exception
    (day_body fs connector start_date end_date)
    (fun e => logging_error (error_msg start_date end_date e)).

Definition inspect {A} (a : A) : {b : A | a = b} := exist _ a eq_refl.

(** The [while start_date < end_date] loop of [main]: the day ranges
    [(start_date, day_end)] it submits, in order, and the exception that
    ended it early, if any. *)
Equations? day_ranges (start_date end_date : datetime)
  : list (datetime * datetime) * option exn
  by wf (Z.to_nat ((end_date - start_date + DAY - 1) / DAY)) lt :=
day_ranges start_date end_date with Z_lt_dec start_date end_date := {
  | right _ => ([], None)
  | left _ with inspect (add start_date DAY) => {
      | exist _ (Raise e) _ => ([], Some e)
      | exist _ (Ok day_end) _ =>
          let (rest, err) := day_ranges day_end end_date in
          ((start_date, day_end) :: rest, err) } }.
Proof.
  unfold add in *.
  destruct (_ && _) in *; [ | discriminate ].
  match goal with H : Ok _ = Ok _ |- _ => injection H as <- end.
  replace (end_date - (start_date + DAY) + DAY - 1)
    with (end_date - start_date + DAY - 1 + (-1) * DAY) by ring.
  rewrite Z.div_add by (unfold DAY; lia).
  assert (1 <= (end_date - start_date + DAY - 1) / DAY).
  { apply Z.div_le_lower_bound; unfold DAY; lia. }
  lia.
Qed.

(** The file system as a run meets it.  The day tasks run at their own
    times and each other's calls change what is on disk, so the answers
    may differ from task to task: a [Disk] gives, for the task of each
    day range, the answers that task gets. *)
Definition Disk : Type := string -> string -> FileSystem.

(** [executor.submit(get_and_export_appointments_for_date, connector,
    str_start_date, str_end_date)] for one day range: the future is the
    task's trace and outcome. *)
Definition submit (disk : Disk) (connector : Connector)
    (range : datetime * datetime) : M unit :=
  let (start_date, day_end) := range in
  let str_start_date := strftime_mdY start_date in
  let str_end_date := strftime_mdY day_end in
  get_and_export_appointments_for_date (disk str_start_date str_end_date)
    connector str_start_date str_end_date.

(** The [as_completed] loop: each future's exception, if it has one, is
    logged.  The pool runs the day tasks concurrently and they share
    nothing but the log, so a run is fixed up to the interleaving of the
    tasks' traces; the traces are listed in submission order. *)
Fixpoint wait_all (futures : list (M unit)) : M unit :=
  match futures with
  | [] => ret tt
  | future :: rest =>
      try_except Exception future
        (fun exc =>
           logging_error ("Generated an exception: " ++ exn_msg exc)) ;;;
      wait_all rest
  end.

(** Leaving the [with] block on an exception still waits for the tasks
    already submitted. *)
Definition shutdown (futures : list (M unit)) : M unit :=
  (List.concat (map trace futures), Ok tt).

(** The bound of the pool.  It limits how many tasks run at a time, not
    which tasks run nor what each of them does. *)
Definition max_threads : Z := 50.

(** [main], from the two command-line arguments on.  The capability is
    the object that [NavigateAPI()] returns; its construction (the
    keyring, the prompt for credentials) happens before any task is
    submitted and is not part of the embedding. *)
Definition main (disk : Disk) (connector : Connector)
    (begin_date end_date : string) : M unit :=
  print "Script running. See logs at /logs/appointments.log for details." ;;;
  start_date <~ lift (strptime_mdY begin_date) ;;
  end_date <~ lift (strptime_mdY end_date) ;;
  let (ranges, interrupted) := day_ranges start_date end_date in
  let futures := map (submit disk connector) ranges in
  match interrupted with
  | Some e => shutdown futures ;;; raise e
  | None => wait_all futures
  end ;;;
  logging_info "All data exported.".

End GetAppointments.

Import GetAppointments.

(** The concrete capability handed to the day tasks by [main]:
    [NavigateAPI()] with its [get_appointments] method, called with the
    two keyword arguments. *)
Definition navigate_connector (requests_get : NavigateAPI.Requests)
    (self : NavigateAPI.t) : Connector :=
  {| get_appointments begin_date end_date :=
       NavigateAPI.get_appointments requests_get self
         [("begin_date", begin_date); ("end_date", end_date)] |}.

(** ** Vocabulary of the statements *)

(** A datetime that [datetime] can represent: 0001-01-01T00:00 up to
    the last microsecond of 9999-12-31. *)
Definition representable (t : datetime) : Prop :=
  1 <= toordinal t <= MAXORDINAL.

(** 9999-12-31T00:00, the latest instant the [%m/%d/%Y] format names. *)
Definition LAST_MIDNIGHT : datetime := MAXORDINAL * DAY.

Definition midnight (t : datetime) : Prop := t mod DAY = 0.

(** [n] one-day ranges laid end to end from [cursor]. *)
Fixpoint days_from (cursor : datetime) (n : nat) : list (datetime * datetime) :=
  match n with
  | O => []
  | S k => (cursor, cursor + DAY) :: days_from (cursor + DAY) k
  end.

(** Each range is [[cursor, cursor + 1 day)] and the next one starts
    where it ends. *)
Fixpoint consecutive_days (cursor : datetime)
    (ranges : list (datetime * datetime)) : Prop :=
  match ranges with
  | [] => True
  | (a, b) :: rest => a = cursor /\ b = cursor + DAY /\ consecutive_days b rest
  end.

(** The instant [t] lies in the half-open range. *)
Definition within (t : datetime) (range : datetime * datetime) : Prop :=
  fst range <= t < snd range.

(** The ranges tile [[start, stop)]: every instant of it lies in a
    range (no gap) and no instant lies in two (no overlap). *)
Definition tiles (start stop : datetime)
    (ranges : list (datetime * datetime)) : Prop :=
  (forall t, start <= t < stop ->
     exists i r, nth_error ranges i = Some r /\ within t r) /\
  (forall t i j r r',
     nth_error ranges i = Some r -> nth_error ranges j = Some r' ->
     within t r -> within t r' -> i = j).

(** The number of rounds of the loop: the length of the range in days,
    rounded up. *)
Definition day_count (start_date end_date : datetime) : nat :=
  Z.to_nat ((end_date - start_date + DAY - 1) / DAY).

(** *** Records

    The shape of an appointment as the service documents it, every
    field being optional: a mapping whose [organizer], when present, is
    a mapping and whose [attendees], when present, is a list of mappings
    whose [primary_id], when present, is a str. *)
Definition attendee_shaped (attendee : value) : bool :=
  match attendee with
  | VDict entries =>
      match assoc "primary_id" entries with
      | None | Some (VStr _) => true
      | Some _ => false
      end
  | _ => false
  end.

Definition record_shaped (record : value) : bool :=
  match record with
  | VDict entries =>
      match assoc "organizer" entries with
      | None | Some (VDict _) => true
      | Some _ => false
      end &&
      match assoc "attendees" entries with
      | None => true
      | Some (VList items) => forallb attendee_shaped items
      | Some _ => false
      end
  | _ => false
  end.

(** A field read with the null placeholder standing for a missing key. *)
Definition field (key : string) (entries : list (string * value)) : value :=
  match assoc key entries with
  | Some v => v
  | None => VNone
  end.

(** The attendee string in the words of the specification: drop the
    entries that lack a [primary_id], keep the ids of the others in
    their order, join them with a comma. *)
Definition has_primary_id (attendee : value) : bool :=
  match attendee with
  | VDict entries =>
      match assoc "primary_id" entries with
      | Some _ => true
      | None => false
      end
  | _ => false
  end.

Definition primary_id_text (attendee : value) : string :=
  match attendee with
  | VDict entries =>
      match assoc "primary_id" entries with
      | Some (VStr s) => s
      | _ => EmptyString
      end
  | _ => EmptyString
  end.

Definition joined_ids (attendees : list value) : string :=
  String.concat "," (map primary_id_text (filter has_primary_id attendees)).

(** The row of a well-shaped record. *)
Definition row_of (entries : list (string * value)) : FlatRow :=
  {| appointment_id := field "id" entries;
     location := field "location" entries;
     organizer_primary_id :=
       match assoc "organizer" entries with
       | Some (VDict organizer) => field "primary_id" organizer
       | _ => VNone
       end;
     appointment_type := field "type" entries;
     start_time := field "start_time" entries;
     scheduled_student_services := field "scheduled_student_services" entries;
     is_no_show := field "is_no_show" entries;
     is_cancelled := field "is_cancelled" entries;
     attendees_primary_ids :=
       match assoc "attendees" entries with
       | Some (VList items) => joined_ids items
       | _ => EmptyString
       end |}.

(** What the projection owes to a record for the fields it lacks. *)
Definition missing_filled (record : value) (row : FlatRow) : Prop :=
  exists entries,
    record = VDict entries /\
    (assoc "id" entries = None -> appointment_id row = VNone) /\
    (assoc "location" entries = None -> location row = VNone) /\
    (assoc "type" entries = None -> appointment_type row = VNone) /\
    (assoc "start_time" entries = None -> start_time row = VNone) /\
    (assoc "scheduled_student_services" entries = None ->
     scheduled_student_services row = VNone) /\
    (assoc "is_no_show" entries = None -> is_no_show row = VNone) /\
    (assoc "is_cancelled" entries = None -> is_cancelled row = VNone) /\
    (assoc "organizer" entries = None -> organizer_primary_id row = VNone) /\
    (forall organizer,
       assoc "organizer" entries = Some (VDict organizer) ->
       assoc "primary_id" organizer = None ->
       organizer_primary_id row = VNone) /\
    (assoc "attendees" entries = None ->
     attendees_primary_ids row = EmptyString).

(** *** The day task *)

(** What the capability returns or raises for a day. *)
Definition fetched (connector : Connector) (start_date end_date : string)
  : result value :=
  outcome (get_appointments connector start_date end_date).

(** The projection of the fetch result. *)
Definition projected (connector : Connector) (start_date end_date : string)
  : result (list FlatRow) :=
  response <- fetched connector start_date end_date ;;
  extract_appointment_data response.

(** Where the artifact of a day goes. *)
Definition artifact_path (start_date end_date : string) : string :=
  os_path_join default_save_dir (filename_of start_date end_date).

(** The file system lets the writer do its work: the directory is there
    or can be made, and the file can be written. *)
Definition accepts (fs : FileSystem) (dir path : string)
    (rows : list FlatRow) : Prop :=
  (path_exists fs dir = true \/ makedirs fs dir = Ok tt) /\
  to_csv fs path rows = Ok tt.

(** The computation wrote the file [path] with content [rows]. *)
Definition created {A} (c : M A) (path : string) (rows : list FlatRow) : Prop :=
  In (ToCsv path rows) (trace c).

(** The trace of [try: c / except Exception as e: log the error]. *)
Definition absorbed {A} (start_date end_date : string) (c : M A)
  : list event :=
  (trace c ++
   match outcome c with
   | Ok _ => []
   | Raise exc => [Log ERROR (error_msg start_date end_date exc)]
   end)%list.

(** *** Dates as text *)

Fixpoint all_digits (s : string) : bool :=
  match s with
  | EmptyString => true
  | String c rest =>
      match digit c with
      | Some _ => all_digits rest
      | None => false
      end
  end.

(** A date in the [mm/dd/yyyy] form, and the same with underscores. *)
Definition date_text (m d y : string) : string := m ++ "/" ++ d ++ "/" ++ y.

Definition safe_text (m d y : string) : string := m ++ "_" ++ d ++ "_" ++ y.

(** *** Request failures

    The ways a request of [NavigateAPI.get_appointments] fails with a
    [RequestException]: the transport raises one (network), the
    response carries an error status (authentication and other HTTP
    errors), or the body cannot be decoded. *)
Inductive request_failure (answer : result NavigateAPI.Response)
  : exn -> Prop :=
| transport_failure e :
    answer = Raise e -> is_RequestException e = true ->
    request_failure answer e
| status_failure r e :
    answer = Ok r -> NavigateAPI.raise_for_status r = Raise e ->
    request_failure answer e
| body_failure r e :
    answer = Ok r -> NavigateAPI.raise_for_status r = Ok tt ->
    NavigateAPI.json r = Raise e -> is_RequestException e = true ->
    request_failure answer e.

(** *** Sample environments *)

(** A file system with nothing in it that accepts every call. *)
Definition working_fs : FileSystem :=
  {| path_exists _ := false;
     makedirs _ := Ok tt;
     to_csv _ _ := Ok tt |}.

(** A file system on which nothing can be created. *)
Definition read_only_fs : FileSystem :=
  {| path_exists _ := false;
     makedirs _ := Raise (Exn OSError "[Errno 30] Read-only file system");
     to_csv _ _ := Raise (Exn OSError "[Errno 30] Read-only file system") |}.

(** The capability of the scenario of the specification: two records
    on 03/01/2024, a failure on every other day. *)
Definition scenario_connector : Connector :=
  {| get_appointments begin_date _ :=
       if (begin_date =? "03/01/2024")%string then
         ret (VList [VDict [("id", VInt 1);
                            ("attendees",
                             VList [VDict [("primary_id", VStr "A")]])];
                     VDict [("id", VInt 2)]])
       else raise (Exn ConnectionError "connection refused") |}.

(** A capability with one record for every day. *)
Definition busy_connector : Connector :=
  {| get_appointments _ _ := ret (VList [VDict [("id", VInt 1)]]) |}.

(** A first run in which two tasks reach the writer together: both find
    the directory missing, the task of 03/01/2024 creates it, and the
    other's [os.makedirs] finds it already there. *)
Definition racing_disk : Disk :=
  fun start_date _ =>
    if (start_date =? "03/01/2024")%string then working_fs
    else
      {| path_exists _ := false;
         makedirs _ :=
           Raise (Exn OSError
                      "[Errno 17] File exists: 'data/appointments'");
         to_csv _ _ := Ok tt |}.

(** A service that answers every request with [401 Unauthorized]. *)
Definition unauthorized : NavigateAPI.Requests :=
  fun url _ _ =>
    Ok {| NavigateAPI.status_code := 401;
          NavigateAPI.reason := "Unauthorized";
          NavigateAPI.url := url;
          NavigateAPI.json := Ok VNone |}.

Definition sample_api : NavigateAPI.t :=
  {| NavigateAPI.service_name := "NavigateService";
     NavigateAPI.base_url := "https://gsu.campus.eab.com/api";
     NavigateAPI.username := "user";
     NavigateAPI.api_key := "key" |}.

(** ** The rest of the code

    The other methods of [NavigateAPI], the handling of credentials,
    [NavigateSFTP], and what the properties about them need. *)

(** *** The other endpoint wrappers of [navigate_api.py] *)

Module Endpoints.

Import NavigateAPI.

(** The body that every wrapper repeats, with the URL and the query
    parameters as the only difference: the test of the credentials, the
    request, [raise_for_status], the decoding, and the handler of
    [requests.RequestException]. *)
Definition get_json (requests_get : Requests) (self : t) (url : string)
    (params : list (string * string)) : Stdout value :=
  if blank (username self) || blank (api_key self) then
    print "Credentials are not loaded. Please load or update credentials." ;;;
    ret VNone
  else
    try_except is_RequestException
      (response <~ lift (requests_get url params
                                      (username self, api_key self)) ;;
       lift (raise_for_status response) ;;;
       lift (json response))
      (fun e =>
         print ("An error occurred: " ++ exn_msg e) ;;;
         ret VNone).

Definition get_alerts (requests_get : Requests) (self : t)
    (kwargs : list (string * string)) : Stdout value :=
  get_json requests_get self (base_url self ++ "/v3/alerts") kwargs.

Definition get_users (requests_get : Requests) (self : t)
    (kwargs : list (string * string)) : Stdout value :=
  get_json requests_get self (base_url self ++ "/v3/users") kwargs.

(** No [params] are passed here: the query is empty. *)
Definition get_user_by_id (requests_get : Requests) (self : t)
    (user_id : string) : Stdout value :=
  get_json requests_get self (base_url self ++ "/v3/users/" ++ user_id) [].

Definition get_notes (requests_get : Requests) (self : t)
    (kwargs : list (string * string)) : Stdout value :=
  get_json requests_get self (base_url self ++ "/v3/notes") kwargs.

Definition get_reminders (requests_get : Requests) (self : t)
    (kwargs : list (string * string)) : Stdout value :=
  get_json requests_get self (base_url self ++ "/v3/reminders") kwargs.

Definition get_visits (requests_get : Requests) (self : t)
    (kwargs : list (string * string)) : Stdout value :=
  get_json requests_get self (base_url self ++ "/v3/visits") kwargs.

Definition get_attendance (requests_get : Requests) (self : t)
    (kwargs : list (string * string)) : Stdout value :=
  get_json requests_get self
    (base_url self ++ "/v3/enrollment_attendances") kwargs.

Definition get_assignments (requests_get : Requests) (self : t)
    (kwargs : list (string * string)) : Stdout value :=
  get_json requests_get self (base_url self ++ "/v3/assignments") kwargs.

Definition get_assignment_feedback (requests_get : Requests) (self : t)
    (kwargs : list (string * string)) : Stdout value :=
  get_json requests_get self
    (base_url self ++ "/v3/enrollment_assignments") kwargs.

Definition get_endpoint (requests_get : Requests) (self : t)
    (endpoint : string) (kwargs : list (string * string)) : Stdout value :=
  get_json requests_get self (base_url self ++ "/v3/" ++ endpoint) kwargs.

End Endpoints.

(** *** Code that changes a state

    A method that updates its object, or the keyring, threads a state
    through its steps; what was changed before an exception stays
    changed. *)

Module Stateful.

Definition St (S E A : Type) : Type := S -> Eff E A * S.

Definition sret {S E A} (a : A) : St S E A := fun s => (ret a, s).

Definition sraise {S E A} (e : exn) : St S E A := fun s => (raise e, s).

Definition slift {S E A} (c : Eff E A) : St S E A := fun s => (c, s).

Definition sget {S E} : St S E S := fun s => (ret s, s).

Definition sput {S E} (s' : S) : St S E unit := fun _ => (ret tt, s').

Definition sbind {S E A B} (c : St S E A) (k : A -> St S E B) : St S E B :=
  fun s =>
    match c s with
    | ((tr, Ok a), s1) =>
        match k a s1 with
        | ((tr', r), s2) => (((tr ++ tr')%list, r), s2)
        end
    | ((tr, Raise e), s1) => ((tr, Raise e), s1)
    end.

(** [try: body / except <caught> as e: handler e] *)
Definition stry {S E A} (caught : exn -> bool) (body : St S E A)
    (handler : exn -> St S E A) : St S E A :=
  fun s =>
    match body s with
    | ((tr, Raise e), s1) =>
        if caught e then
          match handler e s1 with
          | ((tr', r), s2) => (((tr ++ tr')%list, r), s2)
          end
        else ((tr, Raise e), s1)
    | done => done
    end.

End Stateful.

Export Stateful.

Declare Scope state_scope.
Notation "x <~ c ;; k" := (sbind c (fun x => k))
  (at level 61, c at next level, right associativity) : state_scope.
Notation "c ;;; k" := (sbind c (fun _ => k))
  (at level 61, right associativity) : state_scope.

(** *** Credentials: [__init__], [load_credentials], [update_credentials] *)

Module Credentials.

Local Open Scope state_scope.

(** What the keyring holds, as [(service, entry, password)], and what the
    user is going to type, line by line.  The keyring backend is taken
    to work; when nothing is left to read, [input] and [getpass] raise
    [EOFError], the first with a message and the second without. *)
Record World : Type := {
  keyring : list (string * string * string);
  typed : list string
}.

Inductive console : Type :=
| Say (line : string)             (* [print] *)
| Ask (prompt : string)           (* the prompt of [input] *)
| AskHidden (prompt : string).    (* the prompt of [getpass.getpass] *)

Definition Session : Type -> Type := St World console.

Definition same_entry (service entry : string)
    (item : string * string * string) : bool :=
  ((fst (fst item) =? service) && (snd (fst item) =? entry))%string.

Fixpoint lookup (service entry : string)
    (items : list (string * string * string)) : option string :=
  match items with
  | [] => None
  | item :: rest =>
      if same_entry service entry item then Some (snd item)
      else lookup service entry rest
  end.

(** [keyring.get_password(service, entry)]: [None] when nothing is stored *)
Definition get_password (service entry : string) : Session (option string) :=
  fun w => (ret (lookup service entry (keyring w)), w).

(** [keyring.set_password(service, entry, password)]: the entry is
    replaced. *)
Definition set_password (service entry password : string) : Session unit :=
  fun w =>
    (ret tt,
     {| keyring :=
          (service, entry, password)
          :: filter (fun item => negb (same_entry service entry item))
                    (keyring w);
        typed := typed w |}).

Definition print (line : string) : Session unit := slift (emit (Say line)).

(** The [EOFError] of [input] at the end of the input. *)
Definition EOFError : exn := Exn OtherException "EOF when reading a line".

(** The [EOFError] of [getpass.getpass] at the end of the input: its
    [_raw_input] does a bare [raise EOFError], which has no message. *)
Definition getpass_EOFError : exn := Exn OtherException EmptyString.

(** The prompt is shown, then a line is read; [at_end] is what is
    raised when there is none. *)
Definition read_line (shown : console) (at_end : exn) : Session string :=
  fun w =>
    match typed w with
    | [] => (([shown], Raise at_end), w)
    | line :: rest =>
        (([shown], Ok line), {| keyring := keyring w; typed := rest |})
    end.

Definition input (prompt : string) : Session string :=
  read_line (Ask prompt) EOFError.

Definition getpass (prompt : string) : Session string :=
  read_line (AskHidden prompt) getpass_EOFError.

Definition load_credentials (service_name : string)
  : Session (string * string) :=
  username <~ get_password service_name "username" ;;
  api_key <~ get_password service_name "api_key" ;;
  match username, api_key with
  | Some username, Some api_key => sret (username, api_key)
  | _, _ =>
      print "Navigate service credentials not found." ;;;
      username <~ input "Enter Navigate username: " ;;
      api_key <~ getpass "Enter Navigate API key: " ;;
      set_password service_name "username" username ;;;
      set_password service_name "api_key" api_key ;;;
      print "Credentials stored successfully." ;;;
      sret (username, api_key)
  end.

(** [NavigateAPI(service_name)] *)
Definition init (service_name : string) : Session NavigateAPI.t :=
  credentials <~ load_credentials service_name ;;
  sret {| NavigateAPI.service_name := service_name;
          NavigateAPI.base_url := "https://gsu.campus.eab.com/api";
          NavigateAPI.username := fst credentials;
          NavigateAPI.api_key := snd credentials |}.

(** The default of [service_name] *)
Definition default_service_name : string := "NavigateService".

(** The method returns the pair it stored; it assigns nothing to
    [self]. *)
Definition update_credentials (self : NavigateAPI.t)
  : Session (string * string) :=
  username <~ input "Enter new Navigate username: " ;;
  api_key <~ getpass "Enter new Navigate API key: " ;;
  set_password (NavigateAPI.service_name self) "username" username ;;;
  set_password (NavigateAPI.service_name self) "api_key" api_key ;;;
  print "Credentials updated successfully." ;;;
  sret (username, api_key).

End Credentials.

(** *** [navigate_sftp.py] *)

Module NavigateSFTP.

Local Open Scope state_scope.

(** The object.  An [SSHClient] is known by the number of its creation,
    an SFTP channel by the client that opened it. *)
Record t : Type := {
  host : string;
  username : string;
  private_key_path : string;
  client : option nat;
  sftp : option nat
}.

(** [NavigateSFTP(host, username, private_key_path)] *)
Definition init (host username private_key_path : string) : t :=
  {| host := host; username := username;
     private_key_path := private_key_path;
     client := None; sftp := None |}.

(** What [paramiko] and the server answer to each call. *)
Record Paramiko : Type := {
  RSAKey : string -> result string;
  ssh_connect : nat -> string -> string -> string -> result unit;
  open_sftp : nat -> result unit;
  listdir : nat -> string -> result (list string);
  sftp_get : nat -> string -> string -> result unit;
  sftp_put : nat -> string -> string -> result unit;
  sftp_close : nat -> result unit;
  ssh_close : nat -> result unit
}.

(** What a method does that can be seen: the lines it prints and the
    calls it makes on [paramiko] objects, each recorded when it is
    made, whatever its answer. *)
Inductive step : Type :=
| Out (line : string)
| LoadKey (path : string)
| NewClient (id : nat)
| Connect (id : nat) (host username : string)
| OpenSftp (id : nat)
| ListDir (id : nat) (path : string)
| Get (id : nat) (remote local : string)
| Put (id : nat) (local remote : string)
| CloseSftp (id : nat)
| CloseClient (id : nat).

(** The state a method runs in: the object and the number of clients
    created so far. *)
Definition Method : Type -> Type := St (t * nat) step.

Definition print (line : string) : Method unit := slift (emit (Out line)).

Definition call {A} (made : step) (answer : result A) : Method A :=
  slift (emit made) ;;; slift (lift answer).

Definition self : Method t := fun s => (ret (fst s), s).

Definition set_client (id : nat) : Method unit :=
  fun s =>
    (ret tt,
     ({| host := host (fst s); username := username (fst s);
         private_key_path := private_key_path (fst s);
         client := Some id; sftp := sftp (fst s) |}, snd s)).

Definition set_sftp (id : nat) : Method unit :=
  fun s =>
    (ret tt,
     ({| host := host (fst s); username := username (fst s);
         private_key_path := private_key_path (fst s);
         client := client (fst s); sftp := Some id |}, snd s)).

(** [paramiko.SSHClient()] *)
Definition new_client : Method nat :=
  fun s => (([NewClient (snd s)], Ok (snd s)), (fst s, S (snd s))).

(** A method called on [self.sftp] when it is [None] *)
Definition no_attribute {A} (name : string) : Method A :=
  sraise (Exn AttributeError
              ("'NoneType' object has no attribute '" ++ name ++ "'")).

Definition connect (env : Paramiko) : Method unit :=
  stry Exception
    (me <~ self ;;
     key <~ call (LoadKey (private_key_path me))
                 (RSAKey env (private_key_path me)) ;;
     id <~ new_client ;;
     set_client id ;;;
     call (Connect id (host me) (username me))
          (ssh_connect env id (host me) (username me) key) ;;;
     call (OpenSftp id) (open_sftp env id) ;;;
     set_sftp id ;;;
     print "Connection successfully established.")
    (fun e => print ("Failed to connect: " ++ exn_msg e)).

Definition list_files (env : Paramiko) (remote_path : string)
  : Method (list string) :=
  stry Exception
    (me <~ self ;;
     match sftp me with
     | None => no_attribute "listdir"
     | Some id =>
         files <~ call (ListDir id remote_path) (listdir env id remote_path) ;;
         sret files
     end)
    (fun e => print ("Failed to list files: " ++ exn_msg e) ;;; sret []).

Definition download_file (env : Paramiko) (remote_file local_file : string)
  : Method unit :=
  stry Exception
    (me <~ self ;;
     match sftp me with
     | None => no_attribute "get"
     | Some id =>
         call (Get id remote_file local_file)
              (sftp_get env id remote_file local_file) ;;;
         print ("Successfully downloaded " ++ remote_file ++ " to "
                ++ local_file ++ ".")
     end)
    (fun e => print ("Failed to download file: " ++ exn_msg e)).

Definition upload_file (env : Paramiko) (local_file remote_file : string)
  : Method unit :=
  stry Exception
    (me <~ self ;;
     match sftp me with
     | None => no_attribute "put"
     | Some id =>
         call (Put id local_file remote_file)
              (sftp_put env id local_file remote_file) ;;;
         print ("Successfully uploaded " ++ local_file ++ " to "
                ++ remote_file ++ ".")
     end)
    (fun e => print ("Failed to upload file: " ++ exn_msg e)).

Definition close (env : Paramiko) : Method unit :=
  me <~ self ;;
  match sftp me with
  | Some id => call (CloseSftp id) (sftp_close env id)
  | None => sret tt
  end ;;;
  match client me with
  | Some id => call (CloseClient id) (ssh_close env id)
  | None => sret tt
  end ;;;
  print "Connection closed.".

End NavigateSFTP.

(** *** [save_alerts_to_dataframe] *)

Module Alerts.

(** [obj[key]] for a str [key].  A mapping without the key raises
    [KeyError], which the model files under the other exceptions. *)
Definition getitem (obj : value) (key : string) : result value :=
  match obj with
  | VDict entries =>
      match assoc key entries with
      | Some v => Ok v
      | None => Raise (Exn OtherException ("'" ++ key ++ "'"))
      end
  | VList _ =>
      Raise (Exn TypeError "list indices must be integers or slices, not str")
  | VStr _ =>
      Raise (Exn TypeError "string indices must be integers, not 'str'")
  | _ =>
      Raise (Exn TypeError
               ("'" ++ type_name obj ++ "' object is not subscriptable"))
  end.

(** The test
    [not r or 'data' not in r or 'alerts' not in r['data']],
    evaluated from left to right and no further than needed. *)
Definition invalid_response (alerts_response : value) : result bool :=
  if negb (truthy alerts_response) then Ok true
  else
    has_data <- contains "data" alerts_response ;;
    if negb has_data then Ok true
    else
      data <- getitem alerts_response "data" ;;
      has_alerts <- contains "alerts" data ;;
      Ok (negb has_alerts).

Section Pandas.

(** [pandas] is a collaborator: the frames, the empty frame
    [pd.DataFrame()], the frame built from the alerts, the cells of a
    column [df[name]], and [df.assign] with the two new columns; and
    [str] on the items of a cell. *)
Variable DF : Type.
Variable empty_frame : DF.
Variable DataFrame : value -> result DF.
Variable column : DF -> string -> result (list value).
Variable assign : DF -> list string -> list string -> DF.
Variable str : value -> string.

(** [lambda x: ', '.join(map(str, x))] *)
Definition joined (x : value) : result string :=
  items <- iter x ;;
  Ok (String.concat ", " (map str items)).

(** [series.apply(f)]: [f] on every cell, in order *)
Fixpoint apply (f : value -> result string) (cells : list value)
  : result (list string) :=
  match cells with
  | [] => Ok []
  | cell :: rest =>
      first <- f cell ;;
      others <- apply f rest ;;
      Ok (first :: others)
  end.

Definition save_alerts_to_dataframe (alerts_response : value) : Stdout DF :=
  invalid <~ lift (invalid_response alerts_response) ;;
  if invalid : bool then
    NavigateAPI.print "Invalid or empty response data." ;;;
    ret empty_frame
  else
    data <~ lift (getitem alerts_response "data") ;;
    alerts_data <~ lift (getitem data "alerts") ;;
    df <~ lift (DataFrame alerts_data) ;;
    reasons <~ lift (column df "alert_reasons") ;;
    alert_reasons <~ lift (apply joined reasons) ;;
    enrolled <~ lift (column df "enrollments") ;;
    enrollments <~ lift (apply joined enrolled) ;;
    ret (assign df alert_reasons enrollments).

End Pandas.

End Alerts.

(** The keyring after the two entries of [service] have been set. *)
Definition stored (service username api_key : string)
    (items : list (string * string * string))
  : list (string * string * string) :=
  (service, "api_key", api_key)
  :: filter (fun item => negb (Credentials.same_entry service "api_key" item))
       ((service, "username", username)
        :: filter (fun item =>
                     negb (Credentials.same_entry service "username" item))
                  items).

(** A server on which a channel, once open, cannot be closed. *)
Definition stuck_channel : NavigateSFTP.Paramiko :=
  {| NavigateSFTP.RSAKey _ := Ok "key";
     NavigateSFTP.ssh_connect _ _ _ _ := Ok tt;
     NavigateSFTP.open_sftp _ := Ok tt;
     NavigateSFTP.listdir _ _ := Ok [];
     NavigateSFTP.sftp_get _ _ _ := Ok tt;
     NavigateSFTP.sftp_put _ _ _ := Ok tt;
     NavigateSFTP.sftp_close _ := Raise (Exn OSError "Socket is closed");
     NavigateSFTP.ssh_close _ := Ok tt |}.

(** The three calls of [connect] on the client [id] all return: the key
    loads, the client connects with it, and the channel opens. *)
Definition connects (env : NavigateSFTP.Paramiko) (o : NavigateSFTP.t)
    (id : nat) : Prop :=
  exists key,
    NavigateSFTP.RSAKey env (NavigateSFTP.private_key_path o) = Ok key /\
    NavigateSFTP.ssh_connect env id (NavigateSFTP.host o)
      (NavigateSFTP.username o) key = Ok tt /\
    NavigateSFTP.open_sftp env id = Ok tt.

(** The first of the three calls that raises, raises [e]; [replaced]
    tells whether the client had been created by then. *)
Inductive connect_failure (env : NavigateSFTP.Paramiko)
    (o : NavigateSFTP.t) (id : nat) : exn -> bool -> Prop :=
| key_failure e :
    NavigateSFTP.RSAKey env (NavigateSFTP.private_key_path o) = Raise e ->
    connect_failure env o id e false
| dial_failure key e :
    NavigateSFTP.RSAKey env (NavigateSFTP.private_key_path o) = Ok key ->
    NavigateSFTP.ssh_connect env id (NavigateSFTP.host o)
      (NavigateSFTP.username o) key = Raise e ->
    connect_failure env o id e true
| channel_failure key e :
    NavigateSFTP.RSAKey env (NavigateSFTP.private_key_path o) = Ok key ->
    NavigateSFTP.ssh_connect env id (NavigateSFTP.host o)
      (NavigateSFTP.username o) key = Ok tt ->
    NavigateSFTP.open_sftp env id = Raise e ->
    connect_failure env o id e true.

(** The lines among the steps of a method, in order. *)
Fixpoint printed (steps : list NavigateSFTP.step) : list string :=
  match steps with
  | [] => []
  | NavigateSFTP.Out line :: rest => line :: printed rest
  | _ :: rest => printed rest
  end.

(** The values that are no containers: [in] fails on them. *)
Definition scalar (v : value) : bool :=
  match v with
  | VNone | VBool _ | VInt _ | VFloat _ => true
  | _ => false
  end.

(** ** The calendar *)

(** Linear arithmetic once the length of a day is a number. *)
Ltac day_lia := unfold LAST_MIDNIGHT, MAXORDINAL, DAY in *; lia.

Lemma DAY_pos : 0 < DAY.
Proof. unfold DAY; lia. Qed.

Lemma toordinal_shift t : toordinal (t + DAY) = toordinal t + 1.
Proof.
  unfold toordinal.
  replace (t + DAY) with (t + 1 * DAY) by ring.
  apply Z.div_add. pose proof DAY_pos; lia.
Qed.

Lemma add_day_ok t :
  0 <= toordinal t < MAXORDINAL -> add t DAY = Ok (t + DAY).
Proof.
  intros H. unfold add. rewrite toordinal_shift.
  destruct (1 <=? toordinal t + 1) eqn:E1;
    destruct (toordinal t + 1 <=? MAXORDINAL) eqn:E2; simpl; try reflexivity; lia.
Qed.

Lemma add_day_inv t d : add t DAY = Ok d -> d = t + DAY.
Proof.
  unfold add. destruct (_ && _); [ | discriminate ].
  intros H; injection H as <-. reflexivity.
Qed.

Lemma toordinal_bounds t lo hi :
  lo * DAY <= t < hi * DAY -> lo <= toordinal t < hi.
Proof.
  intros [Hlo Hhi]. unfold toordinal. pose proof DAY_pos. split.
  - apply Z.div_le_lower_bound; lia.
  - apply Z.div_lt_upper_bound; lia.
Qed.

(** ** The partitioning loop *)

Lemma day_ranges_done start_date end_date :
  end_date <= start_date -> day_ranges start_date end_date = ([], None).
Proof.
  intros H. simp day_ranges.
  destruct (Z_lt_dec start_date end_date); [ lia | reflexivity ].
Qed.

Lemma day_ranges_step start_date end_date :
  start_date < end_date ->
  0 <= toordinal start_date < MAXORDINAL ->
  day_ranges start_date end_date =
  let (rest, err) := day_ranges (start_date + DAY) end_date in
  ((start_date, start_date + DAY) :: rest, err).
Proof.
  intros Hlt Hord.
  funelim (day_ranges start_date end_date).
  - lia.
  - match goal with E : add _ _ = Ok _ |- _ =>
      pose proof (add_day_inv _ _ E) as Hd end.
    clear -Hd. subst. reflexivity.
  - match goal with E : add _ _ = Raise _ |- _ =>
      pose proof E as E'; rewrite add_day_ok in E' by assumption;
      discriminate E' end.
Qed.

Lemma day_ranges_overflow start_date end_date :
  start_date < end_date ->
  MAXORDINAL <= toordinal start_date ->
  day_ranges start_date end_date =
  ([], Some (Exn OverflowError "date value out of range")).
Proof.
  intros Hlt Hord.
  funelim (day_ranges start_date end_date).
  - lia.
  - match goal with E : add _ _ = Ok _ |- _ => pose proof E as E' end.
    unfold add in E'; rewrite toordinal_shift in E'.
    destruct (toordinal start_date + 1 <=? MAXORDINAL) eqn:E2; [ lia | ].
    rewrite andb_false_r in E'. discriminate.
  - match goal with E : add _ _ = Raise _ |- _ => pose proof E as E' end.
    unfold add in E'; destruct (_ && _) in E'; [ discriminate | ].
    injection E' as <-. reflexivity.
Qed.

(** The loop makes [n] rounds when [stop] lies in the [n]-th day after
    the cursor, provided that day still exists. *)
Lemma day_ranges_rounds n : forall start_date end_date,
  0 <= toordinal start_date ->
  toordinal start_date + Z.of_nat n <= MAXORDINAL ->
  start_date + (Z.of_nat n - 1) * DAY < end_date <= start_date + Z.of_nat n * DAY ->
  (n = O -> end_date <= start_date) ->
  day_ranges start_date end_date = (days_from start_date n, None).
Proof.
  induction n as [ | k IH]; intros start_date end_date Hlo Hhi Hend Hzero.
  - apply day_ranges_done. auto.
  - rewrite day_ranges_step by (unfold DAY in *; lia).
    rewrite (IH (start_date + DAY) end_date).
    + reflexivity.
    + rewrite toordinal_shift; lia.
    + rewrite toordinal_shift; lia.
    + unfold DAY in *; lia.
    + intros ->. unfold DAY in *; lia.
Qed.

Lemma day_count_bounds start_date end_date :
  start_date <= end_date ->
  let n := Z.of_nat (day_count start_date end_date) in
  start_date + (n - 1) * DAY < end_date <= start_date + n * DAY.
Proof.
  intros Hle n. subst n. unfold day_count.
  pose proof DAY_pos as HD.
  assert (0 <= (end_date - start_date + DAY - 1) / DAY)
    by (apply Z.div_pos; lia).
  rewrite Z2Nat.id by assumption.
  pose proof (Z.div_mod (end_date - start_date + DAY - 1) DAY ltac:(lia)) as Hdm.
  pose proof (Z.mod_pos_bound (end_date - start_date + DAY - 1) DAY HD).
  nia.
Qed.

Lemma day_ranges_total start_date end_date :
  0 <= toordinal start_date ->
  start_date <= end_date <= LAST_MIDNIGHT ->
  day_ranges start_date end_date =
  (days_from start_date (day_count start_date end_date), None).
Proof.
  intros Hlo [Hle Hmax].
  pose proof (day_count_bounds start_date end_date Hle) as Hb. cbv zeta in Hb.
  apply day_ranges_rounds; auto.
  - (* the last range ends before the first unrepresentable midnight *)
    set (n := Z.of_nat (day_count start_date end_date)) in *.
    assert (start_date + n * DAY < (MAXORDINAL + 1) * DAY)
      by (unfold LAST_MIDNIGHT in Hmax; lia).
    assert (toordinal (start_date + n * DAY) < MAXORDINAL + 1).
    { apply (toordinal_bounds _ 0). split; [ | assumption ].
      pose proof DAY_pos. unfold toordinal in Hlo.
      assert (0 <= start_date).
      { destruct (Z_lt_dec start_date 0) as [Hneg | ]; [ | lia ].
        exfalso. assert (start_date / DAY < 0); [ | lia ].
        apply Z.div_lt_upper_bound; lia. }
      nia. }
    unfold toordinal in *. rewrite Z.div_add in * by (unfold DAY; lia). lia.
  - intros Hn. rewrite Hn in Hb. simpl in Hb. lia.
Qed.

Lemma nth_error_days_from n : forall cursor i r,
  nth_error (days_from cursor n) i = Some r <->
  (i < n)%nat /\
  r = (cursor + Z.of_nat i * DAY, cursor + Z.of_nat i * DAY + DAY).
Proof.
  induction n as [ | k IH]; intros cursor i r; simpl.
  - destruct i; simpl; split; try discriminate; intros [H _]; lia.
  - destruct i as [ | i]; simpl.
    + split.
      * intros H; injection H as <-. split; [ lia | f_equal; lia ].
      * intros [_ ->]. do 2 f_equal; lia.
    + rewrite IH. split; intros [Hi ->]; (split; [ lia | f_equal; day_lia ]).
Qed.

Lemma consecutive_days_from n : forall cursor,
  consecutive_days cursor (days_from cursor n).
Proof.
  induction n as [ | k IH]; intros cursor; simpl; auto.
Qed.

Lemma tiles_days_from n start stop :
  stop <= start + Z.of_nat n * DAY ->
  tiles start stop (days_from start n).
Proof.
  intros Hstop. pose proof DAY_pos as HD. split.
  - intros t [Hlo Hhi].
    exists (Z.to_nat ((t - start) / DAY)), 
           (start + (t - start) / DAY * DAY, start + (t - start) / DAY * DAY + DAY).
    assert (0 <= (t - start) / DAY) by (apply Z.div_pos; lia).
    pose proof (Z.div_mod (t - start) DAY ltac:(lia)) as Hdm.
    pose proof (Z.mod_pos_bound (t - start) DAY HD) as Hm.
    split.
    + apply nth_error_days_from. rewrite Z2Nat.id by assumption.
      split; [ | reflexivity ].
      assert ((t - start) / DAY < Z.of_nat n); [ | lia ].
      apply Z.div_lt_upper_bound; lia.
    + unfold within; simpl. lia.
  - intros t i j r r' Hi Hj Hr Hr'.
    apply nth_error_days_from in Hi as [_ ->].
    apply nth_error_days_from in Hj as [_ ->].
    unfold within in *; simpl in *. unfold DAY in *. lia.
Qed.

Lemma last_days_from n : forall cursor d,
  last (days_from cursor (S n)) d =
  (cursor + Z.of_nat n * DAY, cursor + Z.of_nat n * DAY + DAY).
Proof.
  induction n as [ | k IH]; intros cursor d.
  - simpl. f_equal; lia.
  - change (days_from cursor (S (S k)))
      with ((cursor, cursor + DAY) :: days_from (cursor + DAY) (S k)).
    change (last (?x :: days_from (cursor + DAY) (S k)) d)
      with (last (days_from (cursor + DAY) (S k)) d).
    rewrite IH. f_equal; lia.
Qed.

Lemma representable_nonneg t : representable t -> 0 <= toordinal t.
Proof. unfold representable; lia. Qed.

(** C1. For an overall range with [start < stop] (any two instants, not
    only midnights, up to the last day the calendar has), the loop ends
    normally and the day ranges it emits are consecutive one-day ranges
    [[cursor, cursor + 1 day)] beginning at [start]; they cover
    [[start, stop)] with no gap and no overlap, and the last one ends at
    or after [stop] and less than one day past it. *)
Theorem partition_coverage (start stop : datetime) :
  representable start -> start < stop -> stop <= LAST_MIDNIGHT ->
  exists ranges,
    day_ranges start stop = (ranges, None) /\
    ranges <> [] /\
    consecutive_days start ranges /\
    tiles start stop ranges /\
    (forall d, stop <= snd (last ranges d) < stop + DAY).
Proof.
  intros Hrep Hlt Hmax.
  exists (days_from start (day_count start stop)).
  pose proof (day_count_bounds start stop ltac:(lia)) as Hb. cbv zeta in Hb.
  split; [ | split; [ | split; [ | split ] ] ].
  - apply day_ranges_total; [ apply representable_nonneg; assumption | lia ].
  - destruct (day_count start stop) eqn:E; [ day_lia | discriminate ].
  - apply consecutive_days_from.
  - apply tiles_days_from. lia.
  - intros d. destruct (day_count start stop) as [ | k] eqn:E; [ day_lia | ].
    rewrite last_days_from. simpl snd. day_lia.
Qed.

Lemma partition_coverage_witness :
  exists ranges,
    day_ranges (738946 * DAY + 5) (738948 * DAY) = (ranges, None) /\
    ranges <> [] /\
    consecutive_days (738946 * DAY + 5) ranges /\
    tiles (738946 * DAY + 5) (738948 * DAY) ranges /\
    (forall d, 738948 * DAY <= snd (last ranges d) < 738948 * DAY + DAY).
Proof.
  apply partition_coverage.
  - vm_compute. split; discriminate.
  - unfold DAY. lia.
  - unfold LAST_MIDNIGHT, MAXORDINAL, DAY. lia.
Defined.

(** ** Dates read from the command line *)

Lemma days_before_year_mono y y' :
  y <= y' -> days_before_year y <= days_before_year y'.
Proof.
  intros H. unfold days_before_year. cbv zeta.
  Z.to_euclidean_division_equations. lia.
Qed.

Lemma div_step k y :
  0 < k -> y / k = (y - 1) / k + (if y mod k =? 0 then 1 else 0).
Proof.
  intros Hk.
  destruct (y mod k =? 0) eqn:E; rewrite ?Z.eqb_eq, ?Z.eqb_neq in E;
    Z.to_euclidean_division_equations; nia.
Qed.

Lemma days_before_year_next y :
  days_before_year (y + 1) =
  days_before_year y + 365 + (if is_leap y then 1 else 0).
Proof.
  unfold days_before_year, is_leap. cbv zeta.
  replace (y + 1 - 1) with y by ring.
  rewrite (div_step 4 y), (div_step 100 y), (div_step 400 y) by lia.
  assert (H1 : y mod 100 = 0 -> y mod 4 = 0)
    by (intros H; Z.to_euclidean_division_equations; lia).
  assert (H2 : y mod 400 = 0 -> y mod 100 = 0)
    by (intros H; Z.to_euclidean_division_equations; lia).
  destruct (y mod 4 =? 0) eqn:E4; destruct (y mod 100 =? 0) eqn:E100;
    destruct (y mod 400 =? 0) eqn:E400; simpl;
    rewrite ?Z.eqb_eq, ?Z.eqb_neq in *; lia.
Qed.

Lemma month_cases m :
  1 <= m <= 12 ->
  m = 1 \/ m = 2 \/ m = 3 \/ m = 4 \/ m = 5 \/ m = 6 \/
  m = 7 \/ m = 8 \/ m = 9 \/ m = 10 \/ m = 11 \/ m = 12.
Proof. lia. Qed.

(** Replace the closed table look-ups and comparisons by their values. *)
Ltac eval_tables :=
  repeat match goal with
  | |- context [table ?l ?k] =>
      let v := eval vm_compute in (table l k) in change (table l k) with v
  | H : context [table ?l ?k] |- _ =>
      let v := eval vm_compute in (table l k) in change (table l k) with v in H
  | |- context [Z.ltb ?a ?b] =>
      let v := eval vm_compute in (Z.ltb a b) in change (Z.ltb a b) with v
  | H : context [Z.eqb ?a ?b] |- _ =>
      let v := eval vm_compute in (Z.eqb a b) in change (Z.eqb a b) with v in H
  end.

Lemma day_of_year_bound y m d :
  1 <= m <= 12 -> 1 <= d <= days_in_month y m ->
  1 <= days_before_month y m + d <= 365 + (if is_leap y then 1 else 0).
Proof.
  intros Hm Hd. apply month_cases in Hm.
  unfold days_in_month, days_before_month in *.
  repeat (destruct Hm as [-> | Hm]); try subst m;
    eval_tables; cbv beta iota in *; unfold andb in *;
    destruct (is_leap y); lia.
Qed.

Lemma ymd2ord_bounds y m d :
  1 <= y <= 9999 -> 1 <= m <= 12 -> 1 <= d <= days_in_month y m ->
  1 <= ymd2ord y m d <= MAXORDINAL.
Proof.
  intros Hy Hm Hd. unfold ymd2ord.
  pose proof (day_of_year_bound y m d Hm Hd) as Hdoy.
  pose proof (days_before_year_next y) as Hnext.
  pose proof (days_before_year_mono 1 y ltac:(lia)) as Hlo.
  pose proof (days_before_year_mono (y + 1) 10000 ltac:(lia)) as Hhi.
  change (days_before_year 1) with 0 in Hlo.
  change (days_before_year 10000) with 3652059 in Hhi.
  unfold MAXORDINAL. lia.
Qed.

Lemma digit_range c x : digit c = Some x -> 0 <= x <= 9.
Proof.
  unfold digit. cbv zeta.
  destruct (48 <=? Z.of_nat (nat_of_ascii c)) eqn:E1;
    destruct (Z.of_nat (nat_of_ascii c) <=? 57) eqn:E2; simpl;
    try discriminate.
  intros H; injection H as <-. lia.
Qed.

Lemma two_digits_inv ok s n rest :
  two_digits ok s = Some (n, rest) ->
  exists x y, 0 <= x <= 9 /\ 0 <= y <= 9 /\ ok x y = true /\ n = 10 * x + y.
Proof.
  unfold two_digits. destruct s as [ | a [ | b s']]; try discriminate.
  destruct (digit a) as [x | ] eqn:Ea; [ | discriminate ].
  destruct (digit b) as [y | ] eqn:Eb; [ | discriminate ].
  destruct (ok x y) eqn:Eok; [ | discriminate ].
  intros H; injection H as <- <-.
  pose proof (digit_range _ _ Ea). pose proof (digit_range _ _ Eb).
  exists x, y. repeat split; solve [ lia | assumption ].
Qed.

Lemma one_digit_inv ok s n rest :
  one_digit ok s = Some (n, rest) -> 0 <= n <= 9 /\ ok n = true.
Proof.
  unfold one_digit. destruct s as [ | a s']; try discriminate.
  destruct (digit a) as [x | ] eqn:Ea; [ | discriminate ].
  destruct (ok x) eqn:Eok; [ | discriminate ].
  intros H; injection H as <- <-.
  pose proof (digit_range _ _ Ea). split; [ lia | assumption ].
Qed.

Lemma space_digit_inv ok s n rest :
  space_digit ok s = Some (n, rest) -> 0 <= n <= 9 /\ ok n = true.
Proof.
  unfold space_digit. destruct s as [ | a s']; try discriminate.
  destruct (Ascii.eqb a " ") eqn:E.
  - apply Ascii.eqb_eq in E as ->. apply one_digit_inv.
  - destruct a as [[] [] [] [] [] [] [] []]; try discriminate.
Qed.

Lemma orelse_inv {A} (x y : option A) v :
  orelse x y = Some v -> x = Some v \/ y = Some v.
Proof. destruct x; simpl; auto. Qed.

Ltac bools :=
  repeat match goal with
  | H : _ && _ = true |- _ => apply andb_prop in H as [? ?]
  | H : (_ =? _) = true |- _ => apply Z.eqb_eq in H
  | H : (_ <=? _) = true |- _ => apply Z.leb_le in H
  end.

Lemma group_m_range s m rest : group_m s = Some (m, rest) -> 1 <= m <= 12.
Proof.
  unfold group_m. intros H.
  repeat (apply orelse_inv in H as [H | H]).
  - apply two_digits_inv in H as (x & y & Hx & Hy & Hok & ->). bools. lia.
  - apply two_digits_inv in H as (x & y & Hx & Hy & Hok & ->). bools. lia.
  - apply one_digit_inv in H as [Hn Hok]. bools. lia.
Qed.

Lemma group_d_range s d rest : group_d s = Some (d, rest) -> 1 <= d <= 31.
Proof.
  unfold group_d. intros H.
  repeat (apply orelse_inv in H as [H | H]).
  - apply two_digits_inv in H as (x & y & Hx & Hy & Hok & ->). bools. lia.
  - apply two_digits_inv in H as (x & y & Hx & Hy & Hok & ->). bools. lia.
  - apply two_digits_inv in H as (x & y & Hx & Hy & Hok & ->). bools. lia.
  - apply one_digit_inv in H as [Hn Hok]. bools. lia.
  - apply space_digit_inv in H as [Hn Hok]. bools. lia.
Qed.

Lemma group_Y_range s y rest : group_Y s = Some (y, rest) -> 0 <= y <= 9999.
Proof.
  unfold group_Y.
  destruct (two_digits _ s) as [[hi s1] | ] eqn:E1; [ | discriminate ].
  destruct (two_digits _ s1) as [[lo s2] | ] eqn:E2; [ | discriminate ].
  intros H. assert (Hy : y = 100 * hi + lo) by congruence. clear H.
  apply two_digits_inv in E1 as (x & y' & Hx & Hy' & _ & Hhi).
  apply two_digits_inv in E2 as (x' & y'' & Hx' & Hy'' & _ & Hlo). lia.
Qed.

(** What [strptime] hands back is the midnight of a calendar day. *)
Lemma strptime_inv s t :
  strptime_mdY s = Ok t ->
  exists y m d,
    1 <= y <= 9999 /\ 1 <= m <= 12 /\ 1 <= d <= days_in_month y m /\
    t = ymd2ord y m d * DAY.
Proof.
  unfold strptime_mdY, match_mdY.
  destruct (group_m s) as [[m s1] | ] eqn:Em; [ | discriminate ].
  destruct (slash s1) as [s2 | ]; [ | discriminate ].
  destruct (group_d s2) as [[d s3] | ] eqn:Ed; [ | discriminate ].
  destruct (slash s3) as [s4 | ]; [ | discriminate ].
  destruct (group_Y s4) as [[y rest] | ] eqn:Ey; [ | discriminate ].
  destruct rest; [ | discriminate ].
  destruct (y <? 1) eqn:Ey1; [ discriminate | ].
  destruct (days_in_month y m <? d) eqn:Edim; [ discriminate | ].
  intros H; injection H as <-.
  apply group_m_range in Em. apply group_d_range in Ed.
  apply group_Y_range in Ey.
  exists y, m, d. repeat split; lia.
Qed.

Lemma strptime_midnight s t :
  strptime_mdY s = Ok t ->
  midnight t /\ representable t /\ t <= LAST_MIDNIGHT.
Proof.
  intros H. apply strptime_inv in H as (y & m & d & Hy & Hm & Hd & ->).
  pose proof (ymd2ord_bounds y m d Hy Hm Hd) as Hb.
  pose proof DAY_pos.
  unfold midnight, representable, toordinal, LAST_MIDNIGHT.
  rewrite Z.mod_mul, Z.div_mul by lia.
  repeat split; try lia. apply Z.mul_le_mono_nonneg_r; lia.
Qed.

Lemma day_count_whole start days :
  0 <= days -> day_count start (start + days * DAY) = Z.to_nat days.
Proof.
  intros H. unfold day_count. f_equal.
  replace (start + days * DAY - start + DAY - 1) with (DAY - 1 + days * DAY)
    by ring.
  rewrite Z.div_add by (unfold DAY; lia).
  rewrite Z.div_small by (unfold DAY; lia). lia.
Qed.

Lemma day_count_reversed start stop :
  stop <= start -> day_count start stop = O.
Proof.
  intros H. unfold day_count.
  assert ((stop - start + DAY - 1) / DAY <= 0); [ | lia ].
  pose proof DAY_pos.
  assert ((stop - start + DAY - 1) / DAY < 1); [ | lia ].
  apply Z.div_lt_upper_bound; lia.
Qed.

(** Whatever two dates the command line gives, the loop ends normally
    with [day_count] day ranges. *)
Lemma day_ranges_cli start stop :
  representable start -> stop <= LAST_MIDNIGHT ->
  day_ranges start stop = (days_from start (day_count start stop), None).
Proof.
  intros Hrep Hmax. destruct (Z_le_gt_dec start stop).
  - apply day_ranges_total; [ apply representable_nonneg; assumption | lia ].
  - rewrite day_count_reversed by lia. apply day_ranges_done. lia.
Qed.

Lemma length_days_from n : forall cursor,
  List.length (days_from cursor n) = n.
Proof. induction n; intros; simpl; auto. Qed.

(** C9. Two dates read in the [mm/dd/yyyy] format are midnights, so the
    length of the range is a whole number of days; the loop ends
    normally, submits exactly that many day ranges (none when the range
    is empty or reversed), and when [start < stop] the last range ends
    at [stop] itself: no range reaches past the end. *)
Theorem cli_range_whole_days (begin_date end_date : string)
    (start stop : datetime) :
  strptime_mdY begin_date = Ok start ->
  strptime_mdY end_date = Ok stop ->
  midnight start /\ midnight stop /\
  exists days : Z,
    stop - start = days * DAY /\
    exists ranges,
      day_ranges start stop = (ranges, None) /\
      Z.of_nat (List.length ranges) = Z.max 0 days /\
      (start < stop -> forall d, snd (last ranges d) = stop).
Proof.
  intros Hb He.
  apply strptime_midnight in Hb as (Hms & Hrs & _).
  apply strptime_midnight in He as (Hme & _ & Hmax).
  split; [ assumption | split; [ assumption | ] ].
  pose proof DAY_pos as HD.
  unfold midnight in *.
  exists ((stop - start) / DAY).
  assert (Hwhole : stop - start = (stop - start) / DAY * DAY).
  { pose proof (Z.div_mod (stop - start) DAY ltac:(lia)) as Hdm.
    assert ((stop - start) mod DAY = 0); [ | lia ].
    rewrite Zminus_mod, Hms, Hme. reflexivity. }
  split; [ assumption | ].
  exists (days_from start (day_count start stop)).
  split; [ apply day_ranges_cli; assumption | ].
  rewrite length_days_from.
  destruct (Z_le_gt_dec start stop) as [Hle | Hgt].
  - assert (Hdays : 0 <= (stop - start) / DAY) by (apply Z.div_pos; lia).
    pose proof (day_count_whole start _ Hdays) as Hdc.
    replace (start + (stop - start) / DAY * DAY) with stop in Hdc by lia.
    rewrite Hdc. split; [ lia | ].
    intros Hlt d.
    destruct (Z.to_nat ((stop - start) / DAY)) as [ | k] eqn:Ek; [ nia | ].
    rewrite last_days_from. simpl snd.
    assert (Z.of_nat (S k) = (stop - start) / DAY) by lia. nia.
  - rewrite day_count_reversed by lia. split; [ | lia ].
    assert ((stop - start) / DAY < 0) by (apply Z.div_lt_upper_bound; lia).
    lia.
Qed.

Lemma cli_range_whole_days_witness :
  midnight (738946 * DAY) /\ midnight (738948 * DAY) /\
  exists days : Z,
    738948 * DAY - 738946 * DAY = days * DAY /\
    exists ranges,
      day_ranges (738946 * DAY) (738948 * DAY) = (ranges, None) /\
      Z.of_nat (List.length ranges) = Z.max 0 days /\
      (738946 * DAY < 738948 * DAY ->
       forall d, snd (last ranges d) = 738948 * DAY).
Proof.
  apply (cli_range_whole_days "03/01/2024" "03/03/2024"); reflexivity.
Defined.

(** ** The projection of records *)

Lemma join_strs sep items : forall index,
  join_from index sep (map VStr items) = Ok (String.concat sep items).
Proof.
  induction items as [ | s rest IH]; intros index; [ reflexivity | ].
  destruct rest as [ | s' rest']; [ reflexivity | ].
  change (join_from index sep (map VStr (s :: s' :: rest')))
    with (bind (join_from (S index) sep (map VStr (s' :: rest')))
               (fun tail => Ok (s ++ sep ++ tail))).
  rewrite IH. reflexivity.
Qed.

Lemma primary_ids_shaped items :
  forallb attendee_shaped items = true ->
  primary_ids items =
  Ok (map VStr (map primary_id_text (filter has_primary_id items))).
Proof.
  induction items as [ | attendee rest IH]; [ reflexivity | ].
  simpl forallb. intros H. apply andb_prop in H as [Ha Hrest].
  specialize (IH Hrest).
  destruct attendee as [ | | | | | | entries]; try discriminate Ha.
  simpl in *.
  destruct (assoc "primary_id" entries) as [id | ] eqn:E; simpl.
  - destruct id; try discriminate Ha. rewrite IH. simpl.
    rewrite E. reflexivity.
  - exact IH.
Qed.

Lemma appointment_row_shaped entries :
  record_shaped (VDict entries) = true ->
  appointment_row (VDict entries) = Ok (row_of entries).
Proof.
  unfold record_shaped. intros H. apply andb_prop in H as [Horg Hatt].
  unfold appointment_row, row_of, field. simpl.
  destruct (assoc "organizer" entries) as [organizer | ] eqn:Eo.
  - destruct organizer; try discriminate Horg. simpl.
    destruct (assoc "attendees" entries) as [attendees | ] eqn:Ea.
    + destruct attendees; try discriminate Hatt. simpl.
      rewrite (primary_ids_shaped _ Hatt). simpl.
      unfold join. rewrite join_strs. reflexivity.
    + reflexivity.
  - simpl.
    destruct (assoc "attendees" entries) as [attendees | ] eqn:Ea.
    + destruct attendees; try discriminate Hatt. simpl.
      rewrite (primary_ids_shaped _ Hatt). simpl.
      unfold join. rewrite join_strs. reflexivity.
    + reflexivity.
Qed.

(** The loop appends one row per record, in order, and stops at the
    first record whose row cannot be built. *)
Lemma extract_loop_ok items : forall acc out,
  extract_loop items acc = Ok out <->
  exists rows,
    out = (acc ++ rows)%list /\
    Forall2 (fun record row => appointment_row record = Ok row) items rows.
Proof.
  induction items as [ | record rest IH]; intros acc out; simpl.
  - split.
    + intros H; injection H as <-. exists []. rewrite app_nil_r. auto.
    + intros (rows & -> & HF). inversion HF. rewrite app_nil_r. reflexivity.
  - destruct (appointment_row record) as [row | e] eqn:E; simpl.
    + rewrite IH. split.
      * intros (rows & -> & HF). exists (row :: rows).
        rewrite <- app_assoc. auto.
      * intros (rows & -> & HF). inversion HF as [ | ? row' ? rows' Hrow HF']; subst.
        assert (row' = row) by congruence. subst row'.
        exists rows'. rewrite <- app_assoc. auto.
    + split; [ discriminate | ].
      intros (rows & _ & HF). inversion HF; congruence.
Qed.

Lemma extract_list records out :
  extract_appointment_data (VList records) = Ok out <->
  Forall2 (fun record row => appointment_row record = Ok row) records out.
Proof.
  unfold extract_appointment_data. simpl. rewrite extract_loop_ok.
  split.
  - intros (rows & -> & HF). exact HF.
  - intros HF. exists out. auto.
Qed.

Lemma extract_shaped records :
  forallb record_shaped records = true ->
  exists rows,
    extract_appointment_data (VList records) = Ok rows /\
    Forall2 (fun record row =>
               exists entries, record = VDict entries /\ row = row_of entries)
            records rows.
Proof.
  induction records as [ | record rest IH]; intros H.
  - exists []. split; [ reflexivity | constructor ].
  - simpl in H. apply andb_prop in H as [Hr Hrest].
    destruct (IH Hrest) as (rows & Hrows & HF).
    destruct record as [ | | | | | | entries]; try discriminate Hr.
    exists (row_of entries :: rows). split.
    + apply extract_list. constructor.
      * apply appointment_row_shaped; assumption.
      * apply extract_list; assumption.
    + constructor; eauto.
Qed.

Lemma row_of_missing_filled entries :
  missing_filled (VDict entries) (row_of entries).
Proof.
  exists entries. unfold row_of, field; simpl.
  repeat split; try (intros ->; reflexivity).
  intros organizer -> ->. reflexivity.
Qed.

(** C4. For records of the documented shape, whichever of the
    organizer, the attendee list and the scalar fields are missing, the
    projection returns (it raises nothing) one row per record in which
    each missing scalar and a missing [organizer.primary_id] is the null
    placeholder and a missing attendee list gives the empty string. *)
Theorem projection_total_on_missing_fields (records : list value) :
  forallb record_shaped records = true ->
  exists rows,
    extract_appointment_data (VList records) = Ok rows /\
    Forall2 missing_filled records rows.
Proof.
  intros H. destruct (extract_shaped records H) as (rows & Hrows & HF).
  exists rows. split; [ assumption | ].
  clear -HF. induction HF as [ | record row ? ? (entries & -> & ->)];
    constructor; auto using row_of_missing_filled.
Qed.

Lemma projection_total_on_missing_fields_witness :
  exists rows,
    extract_appointment_data
      (VList [VDict [];
              VDict [("id", VInt 7); ("organizer", VDict [])];
              VDict [("organizer", VDict [("primary_id", VStr "P1")]);
                     ("attendees", VList [VDict []])]]) = Ok rows /\
    Forall2 missing_filled
      [VDict [];
       VDict [("id", VInt 7); ("organizer", VDict [])];
       VDict [("organizer", VDict [("primary_id", VStr "P1")]);
              ("attendees", VList [VDict []])]] rows.
Proof.
  apply projection_total_on_missing_fields. reflexivity.
Defined.

(** C5. The attendee string of a row is built from the attendee entries
    that have a [primary_id], in their order, joined with a comma:
    nothing is removed as a duplicate and nothing is sorted.  In
    particular the entries [A], [B] and one without id give ["A,B"]. *)
Theorem attendee_ids_joined_in_order :
  (forall entries items,
     record_shaped (VDict entries) = true ->
     assoc "attendees" entries = Some (VList items) ->
     exists row,
       appointment_row (VDict entries) = Ok row /\
       attendees_primary_ids row = joined_ids items) /\
  (exists row,
     extract_appointment_data
       (VList [VDict [("attendees",
                       VList [VDict [("primary_id", VStr "A")];
                              VDict [("primary_id", VStr "B")];
                              VDict []])]]) = Ok [row] /\
     attendees_primary_ids row = "A,B") /\
  (exists row,
     extract_appointment_data
       (VList [VDict [("attendees",
                       VList [VDict [("primary_id", VStr "B")];
                              VDict [("primary_id", VStr "A")];
                              VDict [("primary_id", VStr "B")]])]]) = Ok [row] /\
     attendees_primary_ids row = "B,A,B").
Proof.
  split; [ | split ].
  - intros entries items Hshape Hatt.
    exists (row_of entries). split.
    + apply appointment_row_shaped; assumption.
    + unfold row_of; simpl. rewrite Hatt. reflexivity.
  - eexists. split; reflexivity.
  - eexists. split; reflexivity.
Qed.

Lemma attendee_ids_joined_in_order_witness :
  exists row,
    appointment_row
      (VDict [("id", VInt 1);
              ("attendees", VList [VDict [("primary_id", VStr "A")];
                                   VDict [("name", VStr "x")];
                                   VDict [("primary_id", VStr "B")]])])
    = Ok row /\
    attendees_primary_ids row = "A,B".
Proof.
  exact (proj1 attendee_ids_joined_in_order
           [("id", VInt 1);
            ("attendees", VList [VDict [("primary_id", VStr "A")];
                                 VDict [("name", VStr "x")];
                                 VDict [("primary_id", VStr "B")]])]
           [VDict [("primary_id", VStr "A")];
            VDict [("name", VStr "x")];
            VDict [("primary_id", VStr "B")]]
           eq_refl eq_refl).
Defined.

Lemma Forall2_nth_error_l {A B} (R : A -> B -> Prop) xs ys :
  Forall2 R xs ys ->
  forall i x, nth_error xs i = Some x ->
  exists y, nth_error ys i = Some y /\ R x y.
Proof.
  induction 1 as [ | x0 y0 xs ys HR HF IH]; intros i x Hi.
  - destruct i; discriminate.
  - destruct i as [ | i]; simpl in *.
    + injection Hi as <-. eauto.
    + eauto.
Qed.

(** C7. Whenever the projection returns, its output has the length of
    the input and its [i]-th row is the row built from the [i]-th
    record; and it does return on every sequence of records of the
    documented shape. *)
Theorem projection_preserves_length_and_order (records : list value) :
  (forall rows,
     extract_appointment_data (VList records) = Ok rows ->
     List.length rows = List.length records /\
     forall i record,
       nth_error records i = Some record ->
       exists row,
         nth_error rows i = Some row /\ appointment_row record = Ok row) /\
  (forallb record_shaped records = true ->
   exists rows, extract_appointment_data (VList records) = Ok rows).
Proof.
  split.
  - intros rows H. apply extract_list in H. split.
    + symmetry. eapply Forall2_length; eassumption.
    + intros i record Hi.
      destruct (Forall2_nth_error_l _ _ _ H i record Hi) as (row & Hrow & HR).
      eauto.
  - intros H. destruct (extract_shaped records H) as (rows & Hrows & _). eauto.
Qed.

Lemma projection_preserves_length_and_order_witness :
  exists rows,
    extract_appointment_data
      (VList [VDict [("id", VInt 1)]; VDict [("id", VInt 2)]]) = Ok rows.
Proof.
  apply (proj2 (projection_preserves_length_and_order
                  [VDict [("id", VInt 1)]; VDict [("id", VInt 2)]])).
  reflexivity.
Defined.

(** A response that passes [if response:] never projects to the empty
    list: the projection raises or returns at least one row. *)
Lemma extract_truthy response :
  truthy response = true ->
  (exists e, extract_appointment_data response = Raise e) \/
  (exists row rows, extract_appointment_data response = Ok (row :: rows)).
Proof.
  destruct response as [ | b | z | f | s | items | entries]; simpl; intros H;
    try discriminate; try (left; eexists; reflexivity).
  - (* a str: its first character has no [get] *)
    destruct s as [ | c s']; [ discriminate | ].
    left. eexists. reflexivity.
  - (* a list *)
    destruct items as [ | record rest]; [ discriminate | ].
    destruct (extract_appointment_data (VList (record :: rest))) as [out | e] eqn:E.
    + right. apply extract_list in E. inversion E; subst. eauto.
    + left. eauto.
  - (* a dict: its first key has no [get] *)
    destruct entries as [ | [k v] rest]; [ discriminate | ].
    left. eexists. reflexivity.
Qed.

Lemma extract_rows_truthy response row rows :
  extract_appointment_data response = Ok (row :: rows) ->
  truthy response = true.
Proof.
  destruct response as [ | b | z | f | s | items | entries];
    try discriminate.
  - destruct s; [ discriminate | reflexivity ].
  - destruct items; [ discriminate | reflexivity ].
  - destruct entries; [ discriminate | reflexivity ].
Qed.

(** ** The artifact writer *)

Lemma export_to_csv_cases fs rows start_date end_date dir :
  let path := os_path_join dir (filename_of start_date end_date) in
  let made := if path_exists fs dir then [] else [MakeDirs dir] in
  export_to_csv fs rows start_date end_date dir =
  match (if path_exists fs dir then Ok tt else makedirs fs dir) with
  | Raise exc => ([], Raise exc)
  | Ok _ =>
      match to_csv fs path rows with
      | Raise exc => (made, Raise exc)
      | Ok _ =>
          ((made ++ [ToCsv path rows; Log INFO ("Data exported to " ++ path)])%list,
           Ok tt)
      end
  end.
Proof.
  cbv zeta. unfold export_to_csv, os_makedirs, df_to_csv.
  destruct (path_exists fs dir); simpl.
  - destruct (to_csv fs _ rows) as [[] | exc]; reflexivity.
  - destruct (makedirs fs dir) as [[] | exc]; simpl; [ | reflexivity ].
    destruct (to_csv fs _ rows) as [[] | exc]; reflexivity.
Qed.

Lemma export_created fs rows start_date end_date dir path rows' :
  created (export_to_csv fs rows start_date end_date dir) path rows' <->
  path = os_path_join dir (filename_of start_date end_date) /\
  rows' = rows /\ accepts fs dir path rows.
Proof.
  unfold created, accepts. rewrite export_to_csv_cases. cbv zeta.
  destruct (path_exists fs dir) eqn:Ex.
  - destruct (to_csv fs _ rows) as [[] | exc] eqn:Ew; simpl.
    + split.
      * intros [H | [H | []]]; [ | discriminate ].
        injection H as <- <-. auto.
      * intros (-> & -> & _). auto.
    + split; [ intros [] | ]. intros (-> & -> & _ & H). congruence.
  - destruct (makedirs fs dir) as [[] | exc] eqn:Em.
    + destruct (to_csv fs _ rows) as [[] | exc] eqn:Ew; simpl.
      * split.
        -- intros [H | [H | [H | []]]]; try discriminate.
           injection H as <- <-. auto.
        -- intros (-> & -> & _). auto.
      * split.
        -- intros [H | []]; discriminate.
        -- intros (-> & -> & _ & H). congruence.
    + simpl. split; [ intros [] | ].
      intros (_ & _ & [H | H] & _); congruence.
Qed.

(** ** The day task *)

Lemma try_absorbed start_date end_date (c : M unit) :
  try_except Exception c
    (fun e => logging_error (error_msg start_date end_date e)) =
  (absorbed start_date end_date c, Ok tt).
Proof.
  unfold try_except, absorbed, trace, outcome.
  destruct c as [tr [[] | exc]]; simpl; [ rewrite app_nil_r | ]; reflexivity.
Qed.

Lemma day_task_absorbs fs connector start_date end_date :
  get_and_export_appointments_for_date fs connector start_date end_date =
  (absorbed start_date end_date
     (day_body fs connector start_date end_date), Ok tt).
Proof. apply try_absorbed. Qed.

(** The [try] block, case by case. *)
Lemma day_body_cases fs connector start_date end_date :
  day_body fs connector start_date end_date =
  let (lines, fetch) := get_appointments connector start_date end_date in
  let head := Log INFO (starting_msg start_date end_date) :: map Print lines in
  match fetch with
  | Raise exc => (head, Raise exc)
  | Ok response =>
      if truthy response then
        let head' :=
          (head ++ [Log INFO (successful_msg start_date end_date)])%list in
        match extract_appointment_data response with
        | Raise exc => (head', Raise exc)
        | Ok [] =>
            ((head' ++ [Log INFO (no_appointments_msg start_date end_date)])%list,
             Ok tt)
        | Ok (row :: rows) =>
            let export :=
              export_to_csv fs (row :: rows) start_date end_date
                            default_save_dir in
            ((head' ++ trace export)%list, outcome export)
        end
      else
        ((head ++ [Log INFO (empty_list_msg start_date end_date)])%list, Ok tt)
  end.
Proof.
  unfold day_body, printing, logging_info, emit, lift, bindM.
  destruct (get_appointments connector start_date end_date)
    as [lines [response | exc]]; simpl; [ | reflexivity ].
  destruct (truthy response); simpl; [ | reflexivity ].
  destruct (extract_appointment_data response) as [[ | row rows] | exc];
    simpl.
  - rewrite <- app_assoc. reflexivity.
  - destruct (export_to_csv _ _ _ _ _) as [tr out]. simpl.
    rewrite <- app_assoc. reflexivity.
  - reflexivity.
Qed.

Lemma prints_create_nothing lines path rows :
  ~ In (ToCsv path rows) (map Print lines).
Proof.
  intros H. apply in_map_iff in H as (line & Heq & _). discriminate.
Qed.

(** Split a membership in a trace down to the events that can match. *)
Ltac in_cases H :=
  simpl in H;
  repeat match type of H with
  | In _ (_ ++ _) => apply in_app_iff in H; simpl in H
  | _ \/ _ => destruct H as [H | H]; simpl in H
  | False => destruct H
  | In (ToCsv _ _) (map Print _) => destruct (prints_create_nothing _ _ _ H)
  | _ = _ => discriminate H
  end.

(** Exactly when and what the day task writes. *)
Lemma day_task_created fs connector start_date end_date path rows :
  created (get_and_export_appointments_for_date fs connector
             start_date end_date) path rows <->
  path = artifact_path start_date end_date /\
  projected connector start_date end_date = Ok rows /\
  rows <> [] /\
  accepts fs default_save_dir path rows.
Proof.
  rewrite day_task_absorbs. unfold created, absorbed, trace at 1, outcome.
  rewrite day_body_cases. unfold projected, fetched, outcome, artifact_path.
  destruct (get_appointments connector start_date end_date)
    as [lines [response | exc]]; cbv zeta; simpl.
  2:{ split; [ intros H; in_cases H | intros (_ & H & _); discriminate ]. }
  destruct (truthy response) eqn:Et.
  2:{ split; [ intros H; in_cases H | ].
      intros (_ & H & Hne & _).
      destruct rows as [ | row rows]; [ congruence | ].
      apply extract_rows_truthy in H. congruence. }
  destruct (extract_appointment_data response) as [[ | row rows0] | exc].
  - split; [ intros H; in_cases H | intros (_ & H & Hne & _); congruence ].
  - pose proof (export_created fs (row :: rows0) start_date end_date
                  default_save_dir path rows) as Hx.
    unfold created in Hx.
    set (export := export_to_csv fs (row :: rows0) start_date end_date
                     default_save_dir) in *.
    split.
    + intros H.
      assert (Hin : In (ToCsv path rows) (trace export)).
      { destruct (snd export); in_cases H; assumption. }
      apply Hx in Hin as (-> & -> & Hacc).
      repeat split; [ discriminate | apply Hacc | apply Hacc ].
    + intros (-> & Hrows & Hne & Hacc). injection Hrows as <-.
      simpl. right. apply in_app_iff. left. apply in_app_iff. right.
      apply Hx. auto.
  - split; [ intros H; in_cases H | intros (_ & H & _); discriminate ].
Qed.






(** ** The scheduler *)

Lemma day_task_returns fs connector start_date end_date :
  outcome (get_and_export_appointments_for_date fs connector
             start_date end_date) = Ok tt.
Proof. rewrite day_task_absorbs. reflexivity. Qed.

Lemma submit_returns disk connector range :
  outcome (submit disk connector range) = Ok tt.
Proof. destruct range. apply day_task_returns. Qed.

(** When every task returns, waiting for them adds nothing to the
    trace: the handler of the [as_completed] loop stays silent. *)
Lemma wait_all_returns futures :
  Forall (fun future : M unit => outcome future = Ok tt) futures ->
  wait_all futures = (List.concat (map trace futures), Ok tt).
Proof.
  induction 1 as [ | future rest Hf HF IH]; [ reflexivity | ].
  simpl. rewrite IH.
  destruct future as [tr out]. unfold outcome in Hf. simpl in Hf. subst out.
  reflexivity.
Qed.

Lemma main_cli disk connector begin_date end_date start stop :
  strptime_mdY begin_date = Ok start ->
  strptime_mdY end_date = Ok stop ->
  main disk connector begin_date end_date =
  ((Print "Script running. See logs at /logs/appointments.log for details."
    :: List.concat
         (map trace
            (map (submit disk connector)
                 (days_from start (day_count start stop))))
    ++ [Log INFO "All data exported."])%list,
   Ok tt).
Proof.
  intros Hb He. unfold main. rewrite Hb, He.
  apply strptime_midnight in Hb as (_ & Hrep & _).
  apply strptime_midnight in He as (_ & _ & Hmax).
  unfold print, emit, lift. cbn [bindM].
  rewrite (day_ranges_cli _ _ Hrep Hmax).
  rewrite wait_all_returns.
  - reflexivity.
  - apply Forall_forall. intros future Hin.
    apply in_map_iff in Hin as (range & <- & _). apply submit_returns.
Qed.

Lemma task_trace_in_run disk connector ranges range ev :
  In range ranges ->
  In ev (trace (submit disk connector range)) ->
  In ev (List.concat (map trace (map (submit disk connector) ranges))).
Proof.
  intros Hr Hev. apply in_concat.
  exists (trace (submit disk connector range)). split; [ | assumption ].
  apply in_map, in_map. assumption.
Qed.

(** C3. When the capability raises for one day of a run, that day's
    task catches the exception, logs it as an error and returns
    normally; the run goes on to its end, the scheduler has nothing to
    report, every day's task leaves in the run the very trace it has on
    its own, and so the artifact of every other day whose projection has
    rows is written. *)
Theorem failure_isolation (disk : Disk) (connector : Connector)
    (begin_date end_date : string) (start stop day day_end : datetime)
    (exc : exn) :
  strptime_mdY begin_date = Ok start ->
  strptime_mdY end_date = Ok stop ->
  In (day, day_end) (fst (day_ranges start stop)) ->
  fetched connector (strftime_mdY day) (strftime_mdY day_end) = Raise exc ->
  let task a b :=
    get_and_export_appointments_for_date
      (disk (strftime_mdY a) (strftime_mdY b)) connector
      (strftime_mdY a) (strftime_mdY b) in
  let run := main disk connector begin_date end_date in
  outcome (task day day_end) = Ok tt /\
  (exists lines,
     trace (task day day_end) =
     (Log INFO (starting_msg (strftime_mdY day) (strftime_mdY day_end))
      :: map Print lines
      ++ [Log ERROR (error_msg (strftime_mdY day) (strftime_mdY day_end)
                               exc)])%list) /\
  outcome run = Ok tt /\
  trace run =
    (Print "Script running. See logs at /logs/appointments.log for details."
     :: List.concat
          (map trace
             (map (submit disk connector) (fst (day_ranges start stop))))
     ++ [Log INFO "All data exported."])%list /\
  (forall other other_end ev,
     In (other, other_end) (fst (day_ranges start stop)) ->
     In ev (trace (task other other_end)) -> In ev (trace run)) /\
  (forall other other_end rows,
     In (other, other_end) (fst (day_ranges start stop)) ->
     projected connector (strftime_mdY other) (strftime_mdY other_end)
       = Ok rows ->
     rows <> [] ->
     accepts (disk (strftime_mdY other) (strftime_mdY other_end))
       default_save_dir
       (artifact_path (strftime_mdY other) (strftime_mdY other_end)) rows ->
     created run
       (artifact_path (strftime_mdY other) (strftime_mdY other_end)) rows).
Proof.
  intros Hb He Hday Hexc task run.
  assert (Hrun : run =
    ((Print "Script running. See logs at /logs/appointments.log for details."
      :: List.concat
           (map trace
              (map (submit disk connector) (fst (day_ranges start stop))))
      ++ [Log INFO "All data exported."])%list, Ok tt)).
  { subst run. rewrite (main_cli _ _ _ _ _ _ Hb He).
    apply strptime_midnight in Hb as (_ & Hrep & _).
    apply strptime_midnight in He as (_ & _ & Hmax).
    rewrite (day_ranges_cli _ _ Hrep Hmax). reflexivity. }
  assert (Hin : forall other other_end ev,
             In (other, other_end) (fst (day_ranges start stop)) ->
             In ev (trace (task other other_end)) -> In ev (trace run)).
  { intros other other_end ev Hr Hev. rewrite Hrun. simpl. right.
    apply in_app_iff. left.
    apply (task_trace_in_run _ _ _ (other, other_end)); assumption. }
  split; [ apply day_task_returns | ].
  split.
  { subst task. cbv beta. rewrite day_task_absorbs.
    unfold absorbed, trace, outcome. simpl. rewrite day_body_cases.
    unfold fetched, outcome in Hexc.
    destruct (get_appointments connector _ _) as [lines fetch].
    simpl in Hexc. subst fetch. exists lines. reflexivity. }
  split; [ rewrite Hrun; reflexivity | ].
  split; [ rewrite Hrun; reflexivity | ].
  split; [ exact Hin | ].
  intros other other_end rows Hr Hrows Hne Hacc.
  apply (Hin other other_end); [ assumption | ].
  apply day_task_created. auto.
Qed.

Lemma failure_isolation_witness :
  created (main (fun _ _ => working_fs) scenario_connector
             "03/01/2024" "03/03/2024")
    "data/appointments/apmts_03_01_2024_03_02_2024.csv"
    [row_of [("id", VInt 1);
             ("attendees", VList [VDict [("primary_id", VStr "A")]])];
     row_of [("id", VInt 2)]].
Proof.
  refine (proj2 (proj2 (proj2 (proj2 (proj2
    (failure_isolation (fun _ _ => working_fs) scenario_connector
       "03/01/2024" "03/03/2024" (738946 * DAY) (738948 * DAY)
       (738947 * DAY) (738948 * DAY)
       (Exn ConnectionError "connection refused") _ _ _ _)))))
    (738946 * DAY) (738947 * DAY) _ _ _ _ _).
  - reflexivity.
  - reflexivity.
  - vm_compute. right. left. reflexivity.
  - reflexivity.
  - vm_compute. left. reflexivity.
  - reflexivity.
  - discriminate.
  - split; [ right | ]; reflexivity.
Defined.

(** ** The name of the artifact *)

Lemma replace_char_app old new s t :
  replace_char old new (s ++ t) =
  replace_char old new s ++ replace_char old new t.
Proof.
  induction s as [ | c s IH]; simpl; [ reflexivity | ].
  rewrite IH. reflexivity.
Qed.

Lemma replace_slash_digits s :
  all_digits s = true -> replace_char "/" "_" s = s.
Proof.
  induction s as [ | c s IH]; simpl; [ reflexivity | ].
  destruct (digit c) as [x | ] eqn:E; [ | discriminate ].
  intros H. rewrite (IH H).
  destruct (Ascii.eqb c "/") eqn:Ec; [ | reflexivity ].
  apply Ascii.eqb_eq in Ec. subst c. discriminate E.
Qed.

Lemma replace_slash_date m d y :
  all_digits m = true -> all_digits d = true -> all_digits y = true ->
  replace_char "/" "_" (date_text m d y) = safe_text m d y.
Proof.
  intros Hm Hd Hy. unfold date_text, safe_text.
  rewrite !replace_char_app.
  rewrite (replace_slash_digits m), (replace_slash_digits d),
    (replace_slash_digits y) by assumption.
  reflexivity.
Qed.

Lemma os_path_join_relative dir name :
  prefix "/" name = false ->
  dir <> EmptyString -> ends_with_sep dir = false ->
  os_path_join dir name = dir ++ "/" ++ name.
Proof.
  intros Hname Hdir Hsep. unfold os_path_join. rewrite Hname, Hsep.
  destruct (String.eqb_spec dir EmptyString); [ contradiction | reflexivity ].
Qed.

(** C6. For dates in the [mm/dd/yyyy] form, the file the writer names
    is [apmts_<start>_<end>.csv] with the slashes of the two dates
    turned into underscores, joined to the base directory: the rows play
    no part in it.  Whatever the writer creates it creates there, and it
    does create it when the file system accepts the write.  For the
    range 03/01/2024 to 03/02/2024 and the directory [dir] this is
    [dir/apmts_03_01_2024_03_02_2024.csv]. *)
Theorem artifact_name_from_range (fs : FileSystem) (rows : list FlatRow)
    (m1 d1 y1 m2 d2 y2 dir : string) :
  all_digits m1 = true -> all_digits d1 = true -> all_digits y1 = true ->
  all_digits m2 = true -> all_digits d2 = true -> all_digits y2 = true ->
  let start_date := date_text m1 d1 y1 in
  let end_date := date_text m2 d2 y2 in
  let filename :=
    "apmts_" ++ safe_text m1 d1 y1 ++ "_" ++ safe_text m2 d2 y2 ++ ".csv" in
  let export := export_to_csv fs rows start_date end_date dir in
  filename_of start_date end_date = filename /\
  (forall path rows',
     created export path rows' ->
     path = os_path_join dir filename /\ rows' = rows) /\
  (accepts fs dir (os_path_join dir filename) rows ->
   created export (os_path_join dir filename) rows) /\
  (dir <> EmptyString -> ends_with_sep dir = false ->
   os_path_join dir filename = dir ++ "/" ++ filename) /\
  (forall fs' rows',
     let export' := export_to_csv fs' rows' "03/01/2024" "03/02/2024" "dir" in
     (forall path rows'',
        created export' path rows'' ->
        path = "dir/apmts_03_01_2024_03_02_2024.csv") /\
     (accepts fs' "dir" "dir/apmts_03_01_2024_03_02_2024.csv" rows' ->
      created export' "dir/apmts_03_01_2024_03_02_2024.csv" rows')).
Proof.
  intros Hm1 Hd1 Hy1 Hm2 Hd2 Hy2 start_date end_date filename export.
  assert (Hname : filename_of start_date end_date = filename).
  { unfold filename_of, start_date, end_date, filename.
    rewrite !replace_slash_date by assumption. reflexivity. }
  split; [ exact Hname | ].
  split; [ | split; [ | split ] ].
  - intros path rows' H. apply export_created in H as (-> & -> & _).
    rewrite Hname. auto.
  - intros Hacc. apply export_created. rewrite Hname. auto.
  - intros Hdir Hsep. apply os_path_join_relative; auto.
  - intros fs' rows' export'. split.
    + intros path rows'' H.
      apply export_created in H as (-> & _). reflexivity.
    + intros Hacc. apply export_created. auto.
Qed.

Lemma artifact_name_from_range_witness :
  filename_of (date_text "03" "01" "2024") (date_text "03" "02" "2024") =
  "apmts_" ++ safe_text "03" "01" "2024" ++ "_"
           ++ safe_text "03" "02" "2024" ++ ".csv".
Proof.
  exact (proj1 (artifact_name_from_range working_fs [] "03" "01" "2024"
                  "03" "02" "2024" "dir"
                  eq_refl eq_refl eq_refl eq_refl eq_refl eq_refl)).
Defined.

(** ** The concrete capability *)

Lemma raise_for_status_inv r e :
  NavigateAPI.raise_for_status r = Raise e ->
  is_RequestException e = true /\ 400 <= NavigateAPI.status_code r < 600.
Proof.
  unfold NavigateAPI.raise_for_status.
  destruct ((400 <=? _) && (_ <? 500)) eqn:E4.
  - intros H; injection H as <-. apply andb_prop in E4 as [H1 H2].
    split; [ reflexivity | lia ].
  - destruct ((500 <=? _) && (_ <? 600)) eqn:E5; [ | discriminate ].
    intros H; injection H as <-. apply andb_prop in E5 as [H1 H2].
    split; [ reflexivity | lia ].
Qed.

(** An error status is a request failure. *)
Lemma http_error_status_fails r :
  400 <= NavigateAPI.status_code r < 600 ->
  exists e, request_failure (Ok r) e.
Proof.
  intros H.
  destruct (NavigateAPI.raise_for_status r) as [[] | e] eqn:E.
  - unfold NavigateAPI.raise_for_status in E.
    destruct ((400 <=? _) && (_ <? 500)) eqn:E4; [ discriminate | ].
    destruct ((500 <=? _) && (_ <? 600)) eqn:E5; [ discriminate | ].
    apply andb_false_iff in E4, E5. lia.
  - exists e. eapply status_failure; eauto.
Qed.

Lemma request_failure_caught answer e :
  request_failure answer e -> is_RequestException e = true.
Proof.
  destruct 1 as [e _ H | r e _ H | r e _ _ _ H]; auto.
  apply raise_for_status_inv in H. tauto.
Qed.

Lemma get_appointments_on_failure requests_get self kwargs exc :
  NavigateAPI.blank (NavigateAPI.username self) = false ->
  NavigateAPI.blank (NavigateAPI.api_key self) = false ->
  request_failure
    (requests_get (NavigateAPI.base_url self ++ "/appointments") kwargs
                  (NavigateAPI.username self, NavigateAPI.api_key self))
    exc ->
  NavigateAPI.get_appointments requests_get self kwargs =
  (["An error occurred: " ++ exn_msg exc], Ok VNone).
Proof.
  intros Hu Hk Hfail. pose proof (request_failure_caught _ _ Hfail) as Hc.
  unfold NavigateAPI.get_appointments. rewrite Hu, Hk. simpl.
  destruct Hfail as [e Ha _ | r e Ha Hs | r e Ha Hs Hj _]; rewrite Ha;
    unfold try_except, bindM, lift, NavigateAPI.print, emit, ret; simpl.
  - rewrite Hc. reflexivity.
  - rewrite Hs. rewrite Hc. reflexivity.
  - rewrite Hs, Hj. rewrite Hc. reflexivity.
Qed.

(** C8. With credentials loaded, a request that fails with a
    [RequestException] (raised by the transport, by an HTTP error
    status, or while decoding the body) does not make
    [NavigateAPI.get_appointments] raise: the exception is caught inside,
    a line is printed and [None] is returned.  The day task then takes
    its empty-result branch: it logs the informational "empty list"
    record, and no error record. *)
Theorem request_failure_logged_as_empty (requests_get : NavigateAPI.Requests)
    (self : NavigateAPI.t) (fs : FileSystem) (start_date end_date : string)
    (exc : exn) :
  NavigateAPI.blank (NavigateAPI.username self) = false ->
  NavigateAPI.blank (NavigateAPI.api_key self) = false ->
  request_failure
    (requests_get (NavigateAPI.base_url self ++ "/appointments")
                  [("begin_date", start_date); ("end_date", end_date)]
                  (NavigateAPI.username self, NavigateAPI.api_key self))
    exc ->
  let run :=
    get_and_export_appointments_for_date fs
      (navigate_connector requests_get self) start_date end_date in
  NavigateAPI.get_appointments requests_get self
    [("begin_date", start_date); ("end_date", end_date)] =
  (["An error occurred: " ++ exn_msg exc], Ok VNone) /\
  run =
  ([Log INFO (starting_msg start_date end_date);
    Print ("An error occurred: " ++ exn_msg exc);
    Log INFO (empty_list_msg start_date end_date)], Ok tt) /\
  (forall msg, ~ In (Log ERROR msg) (trace run)).
Proof.
  intros Hu Hk Hfail run.
  pose proof (get_appointments_on_failure _ _ _ _ Hu Hk Hfail) as Hget.
  assert (Hrun : run =
    ([Log INFO (starting_msg start_date end_date);
      Print ("An error occurred: " ++ exn_msg exc);
      Log INFO (empty_list_msg start_date end_date)], Ok tt)).
  { subst run. rewrite day_task_absorbs. unfold absorbed, trace, outcome.
    rewrite day_body_cases. unfold navigate_connector. cbn [get_appointments].
    rewrite Hget. reflexivity. }
  split; [ exact Hget | ]. split; [ exact Hrun | ].
  intros msg H. rewrite Hrun in H. in_cases H.
Qed.

Lemma request_failure_logged_as_empty_witness :
  get_and_export_appointments_for_date working_fs
    (navigate_connector unauthorized sample_api) "03/01/2024" "03/02/2024" =
  ([Log INFO (starting_msg "03/01/2024" "03/02/2024");
    Print ("An error occurred: 401 Client Error: Unauthorized for url: "
           ++ "https://gsu.campus.eab.com/api/appointments");
    Log INFO (empty_list_msg "03/01/2024" "03/02/2024")], Ok tt).
Proof.
  refine (proj1 (proj2
    (request_failure_logged_as_empty unauthorized sample_api working_fs
       "03/01/2024" "03/02/2024"
       (Exn HTTPError
            ("401 Client Error: Unauthorized for url: "
             ++ "https://gsu.campus.eab.com/api/appointments")) _ _ _))).
  - reflexivity.
  - reflexivity.
  - eapply status_failure; reflexivity.
Defined.

(** ** The branch for an empty projection *)

Lemma export_logs_no_absence fs rows start_date end_date dir msg :
  In (Log INFO msg)
     (trace (export_to_csv fs rows start_date end_date dir)) ->
  exists path, msg = "Data exported to " ++ path.
Proof.
  rewrite export_to_csv_cases. cbv zeta. intros H.
  destruct (path_exists fs dir);
    [ | destruct (makedirs fs dir) as [[] | ?] ];
    try destruct (to_csv fs _ rows) as [[] | ?];
    in_cases H; injection H as <-; eexists; reflexivity.
Qed.

(** C10. A response that passes [if response:] never projects to the
    empty list, so the record of the "no appointments found" branch is
    never logged by a day task; for such a response either the export
    runs on the projected rows (any exception of the export being logged
    as an error) or the projection raises and that exception is caught
    and logged. *)
Theorem no_appointments_branch_unreachable (fs : FileSystem)
    (connector : Connector) (start_date end_date : string) :
  let run :=
    get_and_export_appointments_for_date fs connector start_date end_date in
  (forall response,
     truthy response = true ->
     extract_appointment_data response <> Ok []) /\
  ~ In (Log INFO (no_appointments_msg start_date end_date)) (trace run) /\
  (forall response,
     fetched connector start_date end_date = Ok response ->
     truthy response = true ->
     (exists row rows,
        extract_appointment_data response = Ok (row :: rows) /\
        trace run =
        (Log INFO (starting_msg start_date end_date)
         :: map Print (trace (get_appointments connector start_date end_date))
         ++ Log INFO (successful_msg start_date end_date)
         :: absorbed start_date end_date
              (export_to_csv fs (row :: rows) start_date end_date
                             default_save_dir))%list) \/
     (exists exc,
        extract_appointment_data response = Raise exc /\
        In (Log ERROR (error_msg start_date end_date exc)) (trace run))).
Proof.
  cbv zeta.
  assert (Hnonempty : forall response,
             truthy response = true ->
             extract_appointment_data response <> Ok []).
  { intros response Ht H.
    destruct (extract_truthy response Ht) as [[e He] | (row & rows & He)];
      congruence. }
  split; [ exact Hnonempty | ].
  rewrite day_task_absorbs. unfold absorbed at 1 2 3, trace at 1 2 3, outcome.
  rewrite day_body_cases. unfold fetched, outcome, trace.
  destruct (get_appointments connector start_date end_date)
    as [lines [response | exc]]; cbv zeta; simpl.
  2:{ split; [ intros H; in_cases H | intros ? ?; discriminate ].
      apply in_map_iff in H as (? & ? & _). discriminate. }
  destruct (truthy response) eqn:Et.
  2:{ split; [ | intros ? H; injection H as <-; congruence ].
      intros H. in_cases H.
      apply in_map_iff in H as (? & ? & _). discriminate. }
  specialize (Hnonempty response Et).
  destruct (extract_appointment_data response) as [[ | row rows] | exc] eqn:Ex;
    [ congruence | | ].
  - split.
    + intros H.
      destruct (snd (export_to_csv fs (row :: rows) start_date end_date
                                   default_save_dir)) eqn:Eo;
        in_cases H;
        try (apply in_map_iff in H as (? & ? & _); discriminate);
        apply export_logs_no_absence in H as (path & H); discriminate.
    + intros response' H _. injection H as <-. left.
      exists row, rows. split; [ exact Ex | ].
      unfold absorbed, trace, outcome. simpl.
      rewrite <- !app_assoc. reflexivity.
  - split.
    + intros H. in_cases H.
      apply in_map_iff in H as (? & ? & _). discriminate.
    + intros response' H _. injection H as <-. right.
      exists exc. split; [ exact Ex | ].
      simpl. right. apply in_app_iff. right. simpl. auto.
Qed.

(** ** Runs of the model *)

(** The scenario of the specification: two days, two records on the
    first, a failing fetch on the second.  One artifact with two rows,
    one error record naming the second day. *)
Example scenario_run :
  main (fun _ _ => working_fs) scenario_connector
    "03/01/2024" "03/03/2024" =
  ([Print "Script running. See logs at /logs/appointments.log for details.";
    Log INFO "Starting API call for appointments from 03/01/2024 to 03/02/2024";
    Log INFO
      "API call successful for appointments from 03/01/2024 to 03/02/2024";
    MakeDirs "data/appointments";
    ToCsv "data/appointments/apmts_03_01_2024_03_02_2024.csv"
      [row_of [("id", VInt 1);
               ("attendees", VList [VDict [("primary_id", VStr "A")]])];
       row_of [("id", VInt 2)]];
    Log INFO
      "Data exported to data/appointments/apmts_03_01_2024_03_02_2024.csv";
    Log INFO "Starting API call for appointments from 03/02/2024 to 03/03/2024";
    Log ERROR
      ("Error during API call for the date range from 03/02/2024 "
       ++ "to 03/03/2024: connection refused");
    Log INFO "All data exported."],
   Ok tt).
Proof. vm_compute. reflexivity. Qed.

(** A reversed range submits nothing. *)
Example reversed_range_run :
  main (fun _ _ => working_fs) scenario_connector
    "03/03/2024" "03/01/2024" =
  ([Print "Script running. See logs at /logs/appointments.log for details.";
    Log INFO "All data exported."],
   Ok tt).
Proof. vm_compute. reflexivity. Qed.

(** A date that does not parse ends the script before any task. *)
Example malformed_date_run :
  main (fun _ _ => working_fs) scenario_connector
    "2024-03-01" "03/03/2024" =
  ([Print "Script running. See logs at /logs/appointments.log for details."],
   Raise (Exn ValueError
            "time data '2024-03-01' does not match format '%m/%d/%Y'")).
Proof. vm_compute. reflexivity. Qed.

(** The test for the directory and its creation are two steps, and
    the tasks run together: the one that loses the race for the
    directory loses its artifact, though it had rows. *)
Example directory_race_run :
  main racing_disk busy_connector "03/01/2024" "03/03/2024" =
  ([Print "Script running. See logs at /logs/appointments.log for details.";
    Log INFO (starting_msg "03/01/2024" "03/02/2024");
    Log INFO (successful_msg "03/01/2024" "03/02/2024");
    MakeDirs "data/appointments";
    ToCsv "data/appointments/apmts_03_01_2024_03_02_2024.csv"
      [row_of [("id", VInt 1)]];
    Log INFO
      "Data exported to data/appointments/apmts_03_01_2024_03_02_2024.csv";
    Log INFO (starting_msg "03/02/2024" "03/03/2024");
    Log INFO (successful_msg "03/02/2024" "03/03/2024");
    Log ERROR
      (error_msg "03/02/2024" "03/03/2024"
         (Exn OSError "[Errno 17] File exists: 'data/appointments'"));
    Log INFO "All data exported."],
   Ok tt).
Proof. vm_compute. reflexivity. Qed.

(** A failure of the writer is absorbed like a failure of the fetch:
    rows were there, no file appears. *)
Example write_failure_absorbed :
  get_and_export_appointments_for_date read_only_fs scenario_connector
    "03/01/2024" "03/02/2024" =
  ([Log INFO (starting_msg "03/01/2024" "03/02/2024");
    Log INFO (successful_msg "03/01/2024" "03/02/2024");
    Log ERROR (error_msg "03/01/2024" "03/02/2024"
                 (Exn OSError "[Errno 30] Read-only file system"))],
   Ok tt).
Proof. vm_compute. reflexivity. Qed.

(** Fields that are present with an unexpected value are another
    matter than fields that are missing: the projection raises. *)
Example organizer_none_raises :
  extract_appointment_data (VList [VDict [("organizer", VNone)]]) =
  Raise (Exn AttributeError "'NoneType' object has no attribute 'get'").
Proof. reflexivity. Qed.

Example attendees_none_raises :
  extract_appointment_data (VList [VDict [("attendees", VNone)]]) =
  Raise (Exn TypeError "'NoneType' object is not iterable").
Proof. reflexivity. Qed.

Example numeric_id_raises :
  extract_appointment_data
    (VList [VDict [("attendees", VList [VDict [("primary_id", VInt 42)]])]]) =
  Raise (Exn TypeError "sequence item 0: expected str instance, int found").
Proof. reflexivity. Qed.

(** A response that is a mapping rather than a list is iterated by its
    keys, and a key has no [get]. *)
Example mapping_response_raises :
  extract_appointment_data (VDict [("appointments", VList [])]) =
  Raise (Exn AttributeError "'str' object has no attribute 'get'").
Proof. reflexivity. Qed.

(** Away from the command line the loop can leave the calendar. *)
Example last_day_overflows :
  day_ranges (LAST_MIDNIGHT + 5) (LAST_MIDNIGHT + 7) =
  ([], Some (Exn OverflowError "date value out of range")).
Proof.
  apply day_ranges_overflow; [ day_lia | ].
  apply (toordinal_bounds _ MAXORDINAL (MAXORDINAL + 1)). day_lia.
Qed.

(** * Further properties of the code *)

(** ** The projection, record by record *)

Lemma extract_loop_raises good : forall bad rest acc exc,
  Forall (fun record => exists row, appointment_row record = Ok row) good ->
  appointment_row bad = Raise exc ->
  extract_loop (good ++ bad :: rest)%list acc = Raise exc.
Proof.
  induction good as [ | record good IH]; intros bad rest acc exc Hgood Hbad.
  - simpl. rewrite Hbad. reflexivity.
  - inversion Hgood as [ | ? ? [row Hrow] Hgood']; subst.
    simpl. rewrite Hrow. simpl. apply IH; assumption.
Qed.

Lemma nonempty_list_truthy good bad rest :
  truthy (VList (good ++ bad :: rest)%list) = true.
Proof. destruct good; reflexivity. Qed.

(** X1. The projection is all or nothing.  When one record of the
    response cannot be projected, the call raises the exception of the
    first such record, the rows of the records before it are dropped,
    and the day task writes no file at all: it logs the exception as an
    error and returns. *)
Theorem one_bad_record_loses_the_day (fs : FileSystem)
    (connector : Connector) (start_date end_date : string)
    (good rest : list value) (bad : value) (exc : exn) :
  fetched connector start_date end_date
    = Ok (VList (good ++ bad :: rest)%list) ->
  Forall (fun record => exists row, appointment_row record = Ok row) good ->
  appointment_row bad = Raise exc ->
  let run :=
    get_and_export_appointments_for_date fs connector start_date end_date in
  extract_appointment_data (VList (good ++ bad :: rest)%list) = Raise exc /\
  (forall path rows, ~ created run path rows) /\
  In (Log ERROR (error_msg start_date end_date exc)) (trace run) /\
  outcome run = Ok tt.
Proof.
  intros Hfetch Hgood Hbad run.
  assert (Hx : extract_appointment_data (VList (good ++ bad :: rest)%list)
               = Raise exc).
  { unfold extract_appointment_data. simpl.
    apply extract_loop_raises; assumption. }
  split; [ exact Hx | ]. split; [ | split ].
  - intros path rows H. apply day_task_created in H as (_ & H & _).
    unfold projected in H. rewrite Hfetch in H. simpl in H. congruence.
  - subst run. rewrite day_task_absorbs. unfold absorbed, trace, outcome.
    rewrite day_body_cases. unfold fetched, outcome in Hfetch.
    destruct (get_appointments connector start_date end_date)
      as [lines fetch]. simpl in Hfetch. subst fetch. cbv zeta.
    rewrite nonempty_list_truthy, Hx. simpl.
    right. apply in_app_iff. right. simpl. auto.
  - apply day_task_returns.
Qed.

Lemma one_bad_record_loses_the_day_witness :
  In (Log ERROR
        (error_msg "03/01/2024" "03/02/2024"
           (Exn AttributeError "'NoneType' object has no attribute 'get'")))
     (trace
        (get_and_export_appointments_for_date working_fs
           {| get_appointments _ _ :=
                ret (VList [VDict [("id", VInt 1)];
                            VDict [("organizer", VNone)];
                            VDict [("id", VInt 3)]]) |}
           "03/01/2024" "03/02/2024")).
Proof.
  refine (proj1 (proj2 (proj2
    (one_bad_record_loses_the_day working_fs _ "03/01/2024" "03/02/2024"
       [VDict [("id", VInt 1)]] [VDict [("id", VInt 3)]]
       (VDict [("organizer", VNone)])
       (Exn AttributeError "'NoneType' object has no attribute 'get'")
       _ _ _)))).
  - reflexivity.
  - repeat constructor. eexists. reflexivity.
  - reflexivity.
Defined.

(** X2. The row of a record depends on nine of its keys and on nothing
    else: two mappings that agree on [id], [location], [organizer],
    [type], [start_time], [scheduled_student_services], [is_no_show],
    [is_cancelled] and [attendees] give the same row, or the same
    exception. *)
Theorem projection_reads_nine_keys (entries entries' : list (string * value)) :
  (forall key,
     In key ["id"; "location"; "organizer"; "type"; "start_time";
             "scheduled_student_services"; "is_no_show"; "is_cancelled";
             "attendees"] ->
     assoc key entries = assoc key entries') ->
  appointment_row (VDict entries) = appointment_row (VDict entries').
Proof.
  intros H. unfold appointment_row, get.
  rewrite (H "id"), (H "location"), (H "organizer"), (H "type"),
    (H "start_time"), (H "scheduled_student_services"), (H "is_no_show"),
    (H "is_cancelled"), (H "attendees") by (simpl; tauto).
  reflexivity.
Qed.

Lemma projection_reads_nine_keys_witness :
  appointment_row (VDict [("id", VInt 1); ("end_time", VStr "10:00")]) =
  appointment_row (VDict [("comment", VNone); ("id", VInt 1)]).
Proof.
  apply projection_reads_nine_keys.
  intros key Hkey. simpl in Hkey.
  repeat (destruct Hkey as [<- | Hkey]; [ reflexivity | ]).
  destruct Hkey.
Defined.

(** X3. For a record of the documented shape every field that is
    present reaches the row unchanged: the seven scalars as they are,
    and the organizer's [primary_id] under [organizer_primary_id]. *)
Theorem present_fields_are_copied (entries : list (string * value)) :
  record_shaped (VDict entries) = true ->
  exists row,
    appointment_row (VDict entries) = Ok row /\
    (forall v, assoc "id" entries = Some v -> appointment_id row = v) /\
    (forall v, assoc "location" entries = Some v -> location row = v) /\
    (forall v, assoc "type" entries = Some v -> appointment_type row = v) /\
    (forall v, assoc "start_time" entries = Some v -> start_time row = v) /\
    (forall v, assoc "scheduled_student_services" entries = Some v ->
               scheduled_student_services row = v) /\
    (forall v, assoc "is_no_show" entries = Some v -> is_no_show row = v) /\
    (forall v, assoc "is_cancelled" entries = Some v ->
               is_cancelled row = v) /\
    (forall organizer v,
       assoc "organizer" entries = Some (VDict organizer) ->
       assoc "primary_id" organizer = Some v ->
       organizer_primary_id row = v).
Proof.
  intros Hshape. exists (row_of entries).
  split; [ apply appointment_row_shaped; assumption | ].
  unfold row_of, field; simpl.
  repeat split; try (intros v ->; reflexivity).
  intros organizer v -> ->. reflexivity.
Qed.

Lemma present_fields_are_copied_witness :
  exists row,
    appointment_row
      (VDict [("id", VInt 7); ("is_no_show", VBool true);
              ("organizer", VDict [("primary_id", VStr "P1")])]) = Ok row /\
    appointment_id row = VInt 7 /\ organizer_primary_id row = VStr "P1".
Proof.
  destruct (present_fields_are_copied
              [("id", VInt 7); ("is_no_show", VBool true);
               ("organizer", VDict [("primary_id", VStr "P1")])] eq_refl)
    as (row & Hrow & Hid & _ & _ & _ & _ & _ & _ & Horg).
  exists row. split; [ exact Hrow | ]. split.
  - apply Hid. reflexivity.
  - apply (Horg [("primary_id", VStr "P1")]); reflexivity.
Defined.

(** ** Responses that are not lists *)

(** X4. A response that passes [if response:] without being a list (a
    mapping that wraps the records, a string, a number, [True]) never
    gives a file: the projection raises, and the day task logs the
    success record, then the exception as an error, and returns. *)
Theorem non_list_response_is_an_error (fs : FileSystem)
    (connector : Connector) (start_date end_date : string)
    (response : value) :
  fetched connector start_date end_date = Ok response ->
  truthy response = true ->
  (forall items, response <> VList items) ->
  let run :=
    get_and_export_appointments_for_date fs connector start_date end_date in
  exists exc,
    extract_appointment_data response = Raise exc /\
    run =
    ((Log INFO (starting_msg start_date end_date)
      :: map Print (trace (get_appointments connector start_date end_date))
      ++ [Log INFO (successful_msg start_date end_date);
          Log ERROR (error_msg start_date end_date exc)])%list, Ok tt) /\
    (forall path rows, ~ created run path rows).
Proof.
  intros Hfetch Htruthy Hnolist run.
  assert (Hx : exists exc, extract_appointment_data response = Raise exc).
  { destruct response as [ | b | z | f | s | items | entries];
      try (eexists; reflexivity).
    - destruct s as [ | c s']; [ discriminate | eexists; reflexivity ].
    - destruct (Hnolist items eq_refl).
    - destruct entries as [ | [k v] rest];
        [ discriminate | eexists; reflexivity ]. }
  destruct Hx as [exc Hx]. exists exc.
  split; [ exact Hx | ]. split.
  - subst run. rewrite day_task_absorbs. unfold absorbed, trace, outcome.
    rewrite day_body_cases. unfold fetched, outcome in Hfetch.
    destruct (get_appointments connector start_date end_date)
      as [lines fetch]. simpl in Hfetch. subst fetch. cbv zeta.
    rewrite Htruthy, Hx. simpl. rewrite <- app_assoc. reflexivity.
  - intros path rows H. apply day_task_created in H as (_ & H & _).
    unfold projected in H. rewrite Hfetch in H. simpl in H. congruence.
Qed.

Lemma non_list_response_is_an_error_witness :
  exists exc,
    extract_appointment_data (VDict [("appointments", VList [])])
    = Raise exc.
Proof.
  destruct (non_list_response_is_an_error working_fs
              {| get_appointments _ _ :=
                   ret (VDict [("appointments", VList [])]) |}
              "03/01/2024" "03/02/2024"
              (VDict [("appointments", VList [])])
              eq_refl eq_refl ltac:(discriminate))
    as (exc & Hexc & _).
  exists exc. exact Hexc.
Defined.

(** ** Whole runs *)

Lemma strptime_raises_ValueError s exc :
  strptime_mdY s = Raise exc -> exn_cls exc = ValueError.
Proof.
  unfold strptime_mdY.
  destruct (match_mdY s) as [[[[m d] y] rest] | ].
  - destruct rest.
    + destruct (y <? 1); [ intros H; injection H as <-; reflexivity | ].
      destruct (days_in_month y m <? d); [ | discriminate ].
      intros H; injection H as <-; reflexivity.
    + intros H; injection H as <-; reflexivity.
  - intros H; injection H as <-; reflexivity.
Qed.

(** X5. A run fails only on its dates.  With the capability
    constructed, [main] returns normally exactly when both dates parse,
    whatever the capability and the file system do; otherwise it raises
    a [ValueError] after the banner, before any fetch, log record or
    file. *)
Theorem main_fails_only_on_dates (disk : Disk) (connector : Connector)
    (begin_date end_date : string) :
  let run := main disk connector begin_date end_date in
  (outcome run = Ok tt <->
   exists start stop,
     strptime_mdY begin_date = Ok start /\ strptime_mdY end_date = Ok stop) /\
  (forall exc,
     outcome run = Raise exc ->
     exn_cls exc = ValueError /\
     trace run =
     [Print "Script running. See logs at /logs/appointments.log for details."]).
Proof.
  cbv zeta.
  destruct (strptime_mdY begin_date) as [start | e1] eqn:Eb.
  - destruct (strptime_mdY end_date) as [stop | e2] eqn:Ee.
    + rewrite (main_cli _ _ _ _ _ _ Eb Ee). split.
      * split; [ eauto | reflexivity ].
      * intros exc H. discriminate H.
    + assert (Hm : main disk connector begin_date end_date =
                   ([Print "Script running. See logs at /logs/appointments.log for details."],
                    Raise e2)).
      { unfold main. rewrite Eb, Ee. reflexivity. }
      rewrite Hm. split.
      * split; [ discriminate | intros (? & ? & _ & H); discriminate H ].
      * intros exc H. injection H as <-.
        split; [ eapply strptime_raises_ValueError; eassumption | reflexivity ].
  - assert (Hm : main disk connector begin_date end_date =
                 ([Print "Script running. See logs at /logs/appointments.log for details."],
                  Raise e1)).
    { unfold main. rewrite Eb. reflexivity. }
    rewrite Hm. split.
    + split; [ discriminate | intros (? & ? & H & _); discriminate H ].
    + intros exc H. injection H as <-.
      split; [ eapply strptime_raises_ValueError; eassumption | reflexivity ].
Qed.

(** X6. An empty or reversed range fetches nothing: when the end date
    is not after the begin date (the same day given twice included) the
    run is the banner and the closing record, and it returns
    normally. *)
Theorem empty_range_fetches_nothing (disk : Disk) (connector : Connector)
    (begin_date end_date : string) (start stop : datetime) :
  strptime_mdY begin_date = Ok start ->
  strptime_mdY end_date = Ok stop ->
  stop <= start ->
  main disk connector begin_date end_date =
  ([Print "Script running. See logs at /logs/appointments.log for details.";
    Log INFO "All data exported."], Ok tt).
Proof.
  intros Hb He Hle. rewrite (main_cli _ _ _ _ _ _ Hb He).
  rewrite day_count_reversed by assumption. reflexivity.
Qed.

Lemma empty_range_fetches_nothing_witness :
  main racing_disk busy_connector "03/01/2024" "03/01/2024" =
  ([Print "Script running. See logs at /logs/appointments.log for details.";
    Log INFO "All data exported."], Ok tt).
Proof.
  apply (empty_range_fetches_nothing racing_disk busy_connector
           "03/01/2024" "03/01/2024" (738946 * DAY) (738946 * DAY)).
  - reflexivity.
  - reflexivity.
  - unfold DAY; lia.
Defined.

Lemma append_inj_l a : forall x y : string, a ++ x = a ++ y -> x = y.
Proof.
  induction a as [ | c a IH]; intros x y H; simpl in H; [ exact H | ].
  injection H as H. auto.
Qed.

Lemma export_announced fs rows start_date end_date dir path :
  In (Log INFO ("Data exported to " ++ path))
     (trace (export_to_csv fs rows start_date end_date dir)) <->
  created (export_to_csv fs rows start_date end_date dir) path rows.
Proof.
  unfold created. rewrite export_to_csv_cases. cbv zeta.
  destruct (path_exists fs dir);
    [ | destruct (makedirs fs dir) as [[] | ?] ];
    try destruct (to_csv fs _ rows) as [[] | ?]; simpl;
    split; intros H; in_cases H; injection H as <-; auto 6.
Qed.

(** X7. The log never announces an export that did not happen, and no
    export goes unannounced: the record "Data exported to <path>" is in
    the trace of a day task exactly when the task wrote that file. *)
Theorem export_announced_iff_written (fs : FileSystem)
    (connector : Connector) (start_date end_date path : string) :
  let run :=
    get_and_export_appointments_for_date fs connector start_date end_date in
  In (Log INFO ("Data exported to " ++ path)) (trace run) <->
  exists rows, created run path rows.
Proof.
  cbv zeta. unfold created.
  rewrite day_task_absorbs. unfold absorbed, trace at 1 3, outcome.
  rewrite day_body_cases.
  destruct (get_appointments connector start_date end_date)
    as [lines [response | exc]]; cbv zeta; simpl.
  2:{ split; [ intros H | intros [rows H] ]; in_cases H;
        apply in_map_iff in H as (? & ? & _); discriminate. }
  destruct (truthy response).
  2:{ split; [ intros H | intros [rows H] ]; in_cases H;
        apply in_map_iff in H as (? & ? & _); discriminate. }
  destruct (extract_appointment_data response) as [[ | row rows0] | exc].
  - split; [ intros H | intros [rows H] ]; in_cases H;
      apply in_map_iff in H as (? & ? & _); discriminate.
  - pose proof (export_announced fs (row :: rows0) start_date end_date
                  default_save_dir path) as Hx.
    unfold created in Hx.
    set (export := export_to_csv fs (row :: rows0) start_date end_date
                     default_save_dir) in *.
    split.
    + intros H.
      assert (Hin : In (Log INFO ("Data exported to " ++ path))
                       (trace export)).
      { unfold outcome in H. destruct (snd export); in_cases H;
          try (apply in_map_iff in H as (? & ? & _); discriminate);
          exact H. }
      exists (row :: rows0). simpl. right.
      apply in_app_iff. left. apply in_app_iff. right. apply Hx. exact Hin.
    + intros [rows H].
      assert (Hin : In (ToCsv path rows) (trace export)).
      { unfold outcome in H. destruct (snd export); in_cases H;
          try (apply in_map_iff in H as (? & ? & _); discriminate);
          exact H. }
      pose proof (export_created fs (row :: rows0) start_date end_date
                    default_save_dir path rows) as Hc.
      unfold created in Hc. fold export in Hc.
      pose proof Hin as Hin'. apply Hc in Hin' as (_ & -> & _).
      simpl. right.
      apply in_app_iff. left. apply in_app_iff. right. apply Hx. exact Hin.
  - split; [ intros H | intros [rows H] ]; in_cases H;
      apply in_map_iff in H as (? & ? & _); discriminate.
Qed.

(** ** The endpoint wrappers *)

Lemma get_appointments_is_get_json requests_get self kwargs :
  NavigateAPI.get_appointments requests_get self kwargs =
  Endpoints.get_json requests_get self
    (NavigateAPI.base_url self ++ "/appointments") kwargs.
Proof. reflexivity. Qed.

Lemma get_json_blank requests_get self url params :
  NavigateAPI.blank (NavigateAPI.username self)
  || NavigateAPI.blank (NavigateAPI.api_key self) = true ->
  Endpoints.get_json requests_get self url params =
  (["Credentials are not loaded. Please load or update credentials."],
   Ok VNone).
Proof. intros H. unfold Endpoints.get_json. rewrite H. reflexivity. Qed.

(** What the shared body does once the credentials are there. *)
Lemma get_json_cases requests_get self url params :
  NavigateAPI.blank (NavigateAPI.username self)
  || NavigateAPI.blank (NavigateAPI.api_key self) = false ->
  Endpoints.get_json requests_get self url params =
  match
    (response <- requests_get url params
                   (NavigateAPI.username self, NavigateAPI.api_key self) ;;
     _ <- NavigateAPI.raise_for_status response ;;
     NavigateAPI.json response)
  with
  | Ok v => ([], Ok v)
  | Raise e =>
      if is_RequestException e
      then (["An error occurred: " ++ exn_msg e], Ok VNone)
      else ([], Raise e)
  end.
Proof.
  intros H. unfold Endpoints.get_json. rewrite H.
  destruct (requests_get url params _) as [response | e]; simpl.
  - destruct (NavigateAPI.raise_for_status response) as [[] | e]; simpl.
    + destruct (NavigateAPI.json response) as [v | e]; simpl;
        [ reflexivity | ].
      destruct (is_RequestException e); reflexivity.
    + destruct (is_RequestException e); reflexivity.
  - destruct (is_RequestException e); reflexivity.
Qed.

Lemma get_json_never_raises_request_exception requests_get self url params e :
  outcome (Endpoints.get_json requests_get self url params) = Raise e ->
  is_RequestException e = false.
Proof.
  destruct (NavigateAPI.blank (NavigateAPI.username self)
            || NavigateAPI.blank (NavigateAPI.api_key self)) eqn:Hb.
  - rewrite get_json_blank by assumption. discriminate.
  - rewrite get_json_cases by assumption.
    destruct (_ <- _ ;; _) as [v | e']; [ discriminate | ].
    destruct (is_RequestException e') eqn:E; [ discriminate | ].
    intros H. injection H as <-. exact E.
Qed.

(** X8. No method of [NavigateAPI] that queries the service lets a
    [requests.RequestException] out, whatever the service does: not
    [get_appointments], not the nine [/v3] wrappers, not
    [get_endpoint].  An exception a call does raise is of another
    class. *)
Theorem wrappers_never_raise_request_exception
    (requests_get : NavigateAPI.Requests) (self : NavigateAPI.t)
    (kwargs : list (string * string)) (name : string) (e : exn) :
  In (Raise e)
     (map outcome
        [NavigateAPI.get_appointments requests_get self kwargs;
         Endpoints.get_alerts requests_get self kwargs;
         Endpoints.get_users requests_get self kwargs;
         Endpoints.get_user_by_id requests_get self name;
         Endpoints.get_notes requests_get self kwargs;
         Endpoints.get_reminders requests_get self kwargs;
         Endpoints.get_visits requests_get self kwargs;
         Endpoints.get_attendance requests_get self kwargs;
         Endpoints.get_assignments requests_get self kwargs;
         Endpoints.get_assignment_feedback requests_get self kwargs;
         Endpoints.get_endpoint requests_get self name kwargs]) ->
  is_RequestException e = false.
Proof.
  intros H. cbn [map In] in H.
  repeat (destruct H as [H | H];
          [ eapply get_json_never_raises_request_exception; exact H | ]).
  destruct H.
Qed.

Lemma wrappers_never_raise_request_exception_witness :
  is_RequestException (Exn ValueError "Expecting value") = false.
Proof.
  apply (wrappers_never_raise_request_exception
           (fun url _ _ =>
              Ok {| NavigateAPI.status_code := 200;
                    NavigateAPI.reason := "OK";
                    NavigateAPI.url := url;
                    NavigateAPI.json :=
                      Raise (Exn ValueError "Expecting value") |})
           sample_api [] "alerts").
  simpl. right. left. reflexivity.
Defined.

(** X9. With a blank user name or a blank API key no method consults
    the service: each prints the line about the credentials and returns
    [None], whatever the service would have answered. *)
Theorem blank_credentials_stop_every_call
    (requests_get : NavigateAPI.Requests) (self : NavigateAPI.t)
    (kwargs : list (string * string)) (name : string) :
  NavigateAPI.blank (NavigateAPI.username self)
  || NavigateAPI.blank (NavigateAPI.api_key self) = true ->
  Forall
    (fun call : Stdout value =>
       call =
       (["Credentials are not loaded. Please load or update credentials."],
        Ok VNone))
    [NavigateAPI.get_appointments requests_get self kwargs;
     Endpoints.get_alerts requests_get self kwargs;
     Endpoints.get_users requests_get self kwargs;
     Endpoints.get_user_by_id requests_get self name;
     Endpoints.get_notes requests_get self kwargs;
     Endpoints.get_reminders requests_get self kwargs;
     Endpoints.get_visits requests_get self kwargs;
     Endpoints.get_attendance requests_get self kwargs;
     Endpoints.get_assignments requests_get self kwargs;
     Endpoints.get_assignment_feedback requests_get self kwargs;
     Endpoints.get_endpoint requests_get self name kwargs].
Proof.
  intros H.
  repeat (constructor; [ apply get_json_blank; exact H | ]).
  constructor.
Qed.

Lemma blank_credentials_stop_every_call_witness :
  Endpoints.get_alerts unauthorized
    {| NavigateAPI.service_name := "NavigateService";
       NavigateAPI.base_url := "https://gsu.campus.eab.com/api";
       NavigateAPI.username := EmptyString;
       NavigateAPI.api_key := "key" |} [] =
  (["Credentials are not loaded. Please load or update credentials."],
   Ok VNone).
Proof.
  pose proof (blank_credentials_stop_every_call unauthorized
                {| NavigateAPI.service_name := "NavigateService";
                   NavigateAPI.base_url := "https://gsu.campus.eab.com/api";
                   NavigateAPI.username := EmptyString;
                   NavigateAPI.api_key := "key" |} [] "x" eq_refl) as H.
  inversion H as [ | ? ? _ H']. inversion H' as [ | ? ? Hcall _].
  exact Hcall.
Defined.

(** ** A run against a service that cannot be used *)

Lemma falsy_day_task fs connector start_date end_date response :
  fetched connector start_date end_date = Ok response ->
  truthy response = false ->
  get_and_export_appointments_for_date fs connector start_date end_date =
  ((Log INFO (starting_msg start_date end_date)
    :: map Print (trace (get_appointments connector start_date end_date))
    ++ [Log INFO (empty_list_msg start_date end_date)])%list, Ok tt).
Proof.
  intros Hfetch Hfalsy. rewrite day_task_absorbs.
  unfold absorbed, trace, outcome. rewrite day_body_cases.
  unfold fetched, outcome in Hfetch.
  destruct (get_appointments connector start_date end_date) as [lines fetch].
  simpl in Hfetch. subst fetch. cbv zeta. rewrite Hfalsy. simpl.
  rewrite app_nil_r. reflexivity.
Qed.

Lemma unusable_service_returns_none requests_get self kwargs :
  NavigateAPI.blank (NavigateAPI.username self)
  || NavigateAPI.blank (NavigateAPI.api_key self) = true \/
  (forall url params auth,
     exists exc, request_failure (requests_get url params auth) exc) ->
  exists line,
    NavigateAPI.get_appointments requests_get self kwargs
    = ([line], Ok VNone).
Proof.
  intros [Hblank | Hfail].
  - eexists. rewrite get_appointments_is_get_json.
    apply get_json_blank. exact Hblank.
  - destruct (NavigateAPI.blank (NavigateAPI.username self)
              || NavigateAPI.blank (NavigateAPI.api_key self)) eqn:Hb.
    + eexists. rewrite get_appointments_is_get_json.
      apply get_json_blank. exact Hb.
    + apply orb_false_elim in Hb as [Hu Hk].
      destruct (Hfail (NavigateAPI.base_url self ++ "/appointments") kwargs
                  (NavigateAPI.username self, NavigateAPI.api_key self))
        as [exc Hexc].
      eexists. apply get_appointments_on_failure; eassumption.
Qed.

(** X11. A run against a service that cannot be used looks like a run
    over days without appointments.  When the credentials are blank, or
    when every request fails with a [RequestException], [main] returns
    normally and its trace holds printed lines and informational records
    only: no error record, no directory, no file. *)
Theorem unusable_service_run_is_silent
    (requests_get : NavigateAPI.Requests) (self : NavigateAPI.t)
    (disk : Disk) (begin_date end_date : string) (start stop : datetime) :
  NavigateAPI.blank (NavigateAPI.username self)
  || NavigateAPI.blank (NavigateAPI.api_key self) = true \/
  (forall url params auth,
     exists exc, request_failure (requests_get url params auth) exc) ->
  strptime_mdY begin_date = Ok start ->
  strptime_mdY end_date = Ok stop ->
  let run :=
    main disk (navigate_connector requests_get self) begin_date end_date in
  outcome run = Ok tt /\
  forall ev,
    In ev (trace run) -> exists text, ev = Print text \/ ev = Log INFO text.
Proof.
  intros Hbad Hb He run. subst run.
  rewrite (main_cli _ _ _ _ _ _ Hb He). split; [ reflexivity | ].
  intros ev Hev. simpl in Hev. destruct Hev as [<- | Hev]; [ eauto | ].
  apply in_app_iff in Hev as [Hev | [<- | []]]; [ | eauto ].
  apply in_concat in Hev as (tr & Htr & Hev).
  apply in_map_iff in Htr as (future & <- & Hfuture).
  apply in_map_iff in Hfuture as ([day day_end] & <- & _).
  unfold submit in Hev.
  destruct (unusable_service_returns_none requests_get self
              [("begin_date", strftime_mdY day);
               ("end_date", strftime_mdY day_end)] Hbad) as [line Hline].
  rewrite (falsy_day_task _ _ _ _ VNone) in Hev.
  - unfold navigate_connector in Hev. cbn [get_appointments] in Hev.
    rewrite Hline in Hev. simpl in Hev.
    destruct Hev as [<- | [<- | [<- | []]]]; eauto.
  - unfold fetched, navigate_connector. cbn [get_appointments].
    rewrite Hline. reflexivity.
  - reflexivity.
Qed.

Lemma unusable_service_run_is_silent_witness :
  outcome (main racing_disk (navigate_connector unauthorized sample_api)
             "03/01/2024" "03/03/2024") = Ok tt.
Proof.
  refine (proj1 (unusable_service_run_is_silent unauthorized sample_api
                   racing_disk "03/01/2024" "03/03/2024"
                   (738946 * DAY) (738948 * DAY) _ eq_refl eq_refl)).
  right. intros url params auth.
  eexists. eapply status_failure; reflexivity.
Defined.

(** ** Credentials *)

Lemma same_entry_refl service entry password :
  Credentials.same_entry service entry (service, entry, password) = true.
Proof.
  unfold Credentials.same_entry. simpl. rewrite !String.eqb_refl. reflexivity.
Qed.

Lemma lookup_after_set_other service entry service' entry' items password :
  Credentials.same_entry service' entry' (service, entry, password) = false ->
  Credentials.lookup service' entry'
    ((service, entry, password)
     :: filter (fun item => negb (Credentials.same_entry service entry item))
               items) =
  Credentials.lookup service' entry' items.
Proof.
  intros Hother. simpl. rewrite Hother.
  induction items as [ | [[s n] p] rest IH]; [ reflexivity | ].
  simpl. destruct (Credentials.same_entry service entry (s, n, p)) eqn:E1;
    simpl.
  - destruct (Credentials.same_entry service' entry' (s, n, p)) eqn:E2;
      [ | exact IH ].
    exfalso. unfold Credentials.same_entry in *. simpl in *.
    apply andb_prop in E1 as [Ha Hb]. apply andb_prop in E2 as [Hc Hd].
    apply String.eqb_eq in Ha, Hb, Hc, Hd. subst.
    rewrite !String.eqb_refl in Hother. discriminate.
  - destruct (Credentials.same_entry service' entry' (s, n, p));
      [ reflexivity | exact IH ].
Qed.

Lemma stored_lookup service username api_key items :
  Credentials.lookup service "username" (stored service username api_key items)
    = Some username /\
  Credentials.lookup service "api_key" (stored service username api_key items)
    = Some api_key.
Proof.
  split.
  - unfold stored. rewrite lookup_after_set_other.
    + simpl. rewrite same_entry_refl. reflexivity.
    + unfold Credentials.same_entry. simpl. rewrite String.eqb_refl.
      reflexivity.
  - unfold stored. simpl. rewrite same_entry_refl. reflexivity.
Qed.

Lemma stored_frame service username api_key items service' entry :
  service' <> service ->
  Credentials.lookup service' entry (stored service username api_key items)
  = Credentials.lookup service' entry items.
Proof.
  intros Hs.
  assert (Hother : forall n p,
             Credentials.same_entry service' entry (service, n, p) = false).
  { intros n p. unfold Credentials.same_entry. simpl.
    destruct (String.eqb_spec service service');
      [ congruence | reflexivity ]. }
  unfold stored. rewrite !lookup_after_set_other by apply Hother.
  reflexivity.
Qed.

(** [load_credentials], case by case. *)
Lemma load_credentials_cases service w :
  Credentials.load_credentials service w =
  match Credentials.lookup service "username" (Credentials.keyring w),
        Credentials.lookup service "api_key" (Credentials.keyring w) with
  | Some username, Some api_key => (([], Ok (username, api_key)), w)
  | _, _ =>
      match Credentials.typed w with
      | [] =>
          (([Credentials.Say "Navigate service credentials not found.";
             Credentials.Ask "Enter Navigate username: "],
            Raise Credentials.EOFError), w)
      | [username] =>
          (([Credentials.Say "Navigate service credentials not found.";
             Credentials.Ask "Enter Navigate username: ";
             Credentials.AskHidden "Enter Navigate API key: "],
            Raise Credentials.getpass_EOFError),
           {| Credentials.keyring := Credentials.keyring w;
              Credentials.typed := [] |})
      | username :: api_key :: rest =>
          (([Credentials.Say "Navigate service credentials not found.";
             Credentials.Ask "Enter Navigate username: ";
             Credentials.AskHidden "Enter Navigate API key: ";
             Credentials.Say "Credentials stored successfully."],
            Ok (username, api_key)),
           {| Credentials.keyring :=
                stored service username api_key (Credentials.keyring w);
              Credentials.typed := rest |})
      end
  end.
Proof.
  unfold Credentials.load_credentials, sbind, Credentials.get_password.
  simpl.
  destruct (Credentials.lookup service "username" (Credentials.keyring w))
    as [u | ];
    destruct (Credentials.lookup service "api_key" (Credentials.keyring w))
      as [k | ];
    try reflexivity;
    unfold Credentials.print, Credentials.input, Credentials.getpass,
      Credentials.read_line, Credentials.set_password, slift, sret, emit;
    simpl;
    destruct (Credentials.typed w) as [ | a [ | b rest]]; reflexivity.
Qed.

Lemma init_cases service w :
  Credentials.init service w =
  match Credentials.load_credentials service w with
  | ((tr, Ok credentials), w') =>
      ((tr,
        Ok {| NavigateAPI.service_name := service;
              NavigateAPI.base_url := "https://gsu.campus.eab.com/api";
              NavigateAPI.username := fst credentials;
              NavigateAPI.api_key := snd credentials |}), w')
  | ((tr, Raise e), w') => ((tr, Raise e), w')
  end.
Proof.
  unfold Credentials.init, sbind, sret.
  destruct (Credentials.load_credentials service w) as [[tr [c | e]] w'];
    simpl; [ rewrite app_nil_r | ]; reflexivity.
Qed.

(** X12. Credentials are asked for once.  After a construction of
    [NavigateAPI] that succeeded, with or without questions, the next
    construction for the same service reads the same credentials from
    the keyring, asks and prints nothing and leaves the keyring and the
    pending input as they are. *)
Theorem credentials_are_asked_once (service : string)
    (w w' : Credentials.World) (tr : list Credentials.console)
    (api : NavigateAPI.t) :
  Credentials.init service w = ((tr, Ok api), w') ->
  Credentials.init service w' = (([], Ok api), w').
Proof.
  rewrite !init_cases, !load_credentials_cases.
  destruct (Credentials.lookup service "username" (Credentials.keyring w))
    as [u | ] eqn:Eu;
    destruct (Credentials.lookup service "api_key" (Credentials.keyring w))
      as [k | ] eqn:Ek.
  1:{ intros H. injection H as <- <- <-. rewrite Eu, Ek. reflexivity. }
  all: destruct (Credentials.typed w) as [ | a [ | b rest]];
    try discriminate;
    intros H; injection H as <- <- <-;
    cbn [Credentials.keyring Credentials.typed];
    destruct (stored_lookup service a b (Credentials.keyring w)) as [-> ->];
    reflexivity.
Qed.

Lemma credentials_are_asked_once_witness :
  Credentials.init "NavigateService"
    {| Credentials.keyring :=
         stored "NavigateService" "user" "key" [];
       Credentials.typed := [] |} =
  (([], Ok sample_api),
   {| Credentials.keyring := stored "NavigateService" "user" "key" [];
      Credentials.typed := [] |}).
Proof.
  apply (credentials_are_asked_once "NavigateService"
           {| Credentials.keyring := [];
              Credentials.typed := ["user"; "key"] |}
           _
           [Credentials.Say "Navigate service credentials not found.";
            Credentials.Ask "Enter Navigate username: ";
            Credentials.AskHidden "Enter Navigate API key: ";
            Credentials.Say "Credentials stored successfully."]).
  reflexivity.
Defined.

(** X13. When one of the two entries is missing, [load_credentials]
    asks for both, stores both answers (an entry that was there is
    overwritten) and returns them; the entries of other services are
    not touched. *)
Theorem missing_entry_asks_for_both (service : string)
    (w : Credentials.World) (username api_key : string)
    (rest : list string) :
  Credentials.lookup service "username" (Credentials.keyring w) = None \/
  Credentials.lookup service "api_key" (Credentials.keyring w) = None ->
  Credentials.typed w = username :: api_key :: rest ->
  exists w',
    Credentials.load_credentials service w =
    (([Credentials.Say "Navigate service credentials not found.";
       Credentials.Ask "Enter Navigate username: ";
       Credentials.AskHidden "Enter Navigate API key: ";
       Credentials.Say "Credentials stored successfully."],
      Ok (username, api_key)), w') /\
    Credentials.lookup service "username" (Credentials.keyring w')
      = Some username /\
    Credentials.lookup service "api_key" (Credentials.keyring w')
      = Some api_key /\
    Credentials.typed w' = rest /\
    (forall service' entry,
       service' <> service ->
       Credentials.lookup service' entry (Credentials.keyring w')
       = Credentials.lookup service' entry (Credentials.keyring w)).
Proof.
  intros Hmissing Htyped.
  exists {| Credentials.keyring :=
              stored service username api_key (Credentials.keyring w);
            Credentials.typed := rest |}.
  split.
  - rewrite load_credentials_cases, Htyped.
    destruct Hmissing as [-> | ->];
      [ | destruct (Credentials.lookup service "username" _) ];
      reflexivity.
  - cbn [Credentials.keyring Credentials.typed].
    destruct (stored_lookup service username api_key
                (Credentials.keyring w)) as [Hu Hk].
    repeat split; try assumption.
    intros service' entry Hs. apply stored_frame. assumption.
Qed.

Lemma missing_entry_asks_for_both_witness :
  exists w',
    Credentials.load_credentials "NavigateService"
      {| Credentials.keyring := [("NavigateService", "username", "old")];
         Credentials.typed := ["new"; "key"] |} =
    (([Credentials.Say "Navigate service credentials not found.";
       Credentials.Ask "Enter Navigate username: ";
       Credentials.AskHidden "Enter Navigate API key: ";
       Credentials.Say "Credentials stored successfully."],
      Ok ("new", "key")), w') /\
    Credentials.lookup "NavigateService" "username" (Credentials.keyring w')
      = Some "new".
Proof.
  destruct (missing_entry_asks_for_both "NavigateService"
              {| Credentials.keyring :=
                   [("NavigateService", "username", "old")];
                 Credentials.typed := ["new"; "key"] |}
              "new" "key" [])
    as (w' & Hload & Hu & _).
  - right. reflexivity.
  - reflexivity.
  - exists w'. split; assumption.
Defined.



(** X15. [update_credentials] stores what is typed, and the next
    construction for that service gets exactly that, without asking.
    The method itself only returns the pair. *)
Theorem update_then_construct (self : NavigateAPI.t)
    (w : Credentials.World) (username api_key : string)
    (rest : list string) :
  Credentials.typed w = username :: api_key :: rest ->
  exists w',
    Credentials.update_credentials self w =
    (([Credentials.Ask "Enter new Navigate username: ";
       Credentials.AskHidden "Enter new Navigate API key: ";
       Credentials.Say "Credentials updated successfully."],
      Ok (username, api_key)), w') /\
    Credentials.init (NavigateAPI.service_name self) w' =
    (([], Ok {| NavigateAPI.service_name := NavigateAPI.service_name self;
                NavigateAPI.base_url := "https://gsu.campus.eab.com/api";
                NavigateAPI.username := username;
                NavigateAPI.api_key := api_key |}), w').
Proof.
  intros Htyped.
  exists {| Credentials.keyring :=
              stored (NavigateAPI.service_name self) username api_key
                     (Credentials.keyring w);
            Credentials.typed := rest |}.
  split.
  - unfold Credentials.update_credentials, sbind, Credentials.input,
      Credentials.getpass, Credentials.read_line, Credentials.set_password,
      Credentials.print, slift, sret, emit.
    rewrite Htyped. reflexivity.
  - rewrite init_cases, load_credentials_cases.
    cbn [Credentials.keyring Credentials.typed].
    destruct (stored_lookup (NavigateAPI.service_name self) username api_key
                (Credentials.keyring w)) as [-> ->].
    reflexivity.
Qed.

Lemma update_then_construct_witness :
  exists w',
    Credentials.update_credentials sample_api
      {| Credentials.keyring := stored "NavigateService" "user" "key" [];
         Credentials.typed := ["user2"; "key2"] |} =
    (([Credentials.Ask "Enter new Navigate username: ";
       Credentials.AskHidden "Enter new Navigate API key: ";
       Credentials.Say "Credentials updated successfully."],
      Ok ("user2", "key2")), w').
Proof.
  destruct (update_then_construct sample_api
              {| Credentials.keyring :=
                   stored "NavigateService" "user" "key" [];
                 Credentials.typed := ["user2"; "key2"] |}
              "user2" "key2" [] eq_refl) as (w' & H & _).
  exists w'. exact H.
Defined.

(** X16. A blank answer is kept for good.  When the user answers one
    of the two questions with an empty line, the construction succeeds
    and stores it; later constructions read it back without asking, and
    on that object every call is refused for want of credentials,
    without a request. *)
Theorem blank_answer_is_kept (service : string) (w : Credentials.World)
    (username api_key : string) (rest : list string) :
  Credentials.lookup service "username" (Credentials.keyring w) = None \/
  Credentials.lookup service "api_key" (Credentials.keyring w) = None ->
  Credentials.typed w = username :: api_key :: rest ->
  NavigateAPI.blank username || NavigateAPI.blank api_key = true ->
  exists tr api w',
    Credentials.init service w = ((tr, Ok api), w') /\
    Credentials.init service w' = (([], Ok api), w') /\
    forall requests_get endpoint kwargs,
      Endpoints.get_endpoint requests_get api endpoint kwargs =
      (["Credentials are not loaded. Please load or update credentials."],
       Ok VNone).
Proof.
  intros Hmissing Htyped Hblank.
  exists [Credentials.Say "Navigate service credentials not found.";
          Credentials.Ask "Enter Navigate username: ";
          Credentials.AskHidden "Enter Navigate API key: ";
          Credentials.Say "Credentials stored successfully."],
         {| NavigateAPI.service_name := service;
            NavigateAPI.base_url := "https://gsu.campus.eab.com/api";
            NavigateAPI.username := username;
            NavigateAPI.api_key := api_key |},
         {| Credentials.keyring :=
              stored service username api_key (Credentials.keyring w);
            Credentials.typed := rest |}.
  split; [ | split ].
  - rewrite init_cases, load_credentials_cases, Htyped.
    destruct Hmissing as [-> | ->];
      [ | destruct (Credentials.lookup service "username" _) ];
      reflexivity.
  - rewrite init_cases, load_credentials_cases.
    cbn [Credentials.keyring Credentials.typed].
    destruct (stored_lookup service username api_key
                (Credentials.keyring w)) as [-> ->].
    reflexivity.
  - intros requests_get endpoint kwargs.
    apply get_json_blank. exact Hblank.
Qed.

Lemma blank_answer_is_kept_witness :
  exists tr api w',
    Credentials.init "NavigateService"
      {| Credentials.keyring := [];
         Credentials.typed := [EmptyString; "key"] |}
    = ((tr, Ok api), w') /\
    Credentials.init "NavigateService" w' = (([], Ok api), w') /\
    forall requests_get endpoint kwargs,
      Endpoints.get_endpoint requests_get api endpoint kwargs =
      (["Credentials are not loaded. Please load or update credentials."],
       Ok VNone).
Proof.
  apply (blank_answer_is_kept "NavigateService"
           {| Credentials.keyring := [];
              Credentials.typed := [EmptyString; "key"] |}
           EmptyString "key" []).
  - left. reflexivity.
  - reflexivity.
  - reflexivity.
Defined.

(** ** [NavigateSFTP] *)

(** X17. Before [connect] has succeeded the object has no channel, and
    its three operations fail softly without a call to the server:
    [list_files] returns the empty list, [download_file] and
    [upload_file] return, each after one line naming the attribute that
    [None] lacks; the object is as before. *)
Theorem unconnected_operations_fail_softly (env : NavigateSFTP.Paramiko)
    (o : NavigateSFTP.t) (created_clients : nat) (a b : string) :
  NavigateSFTP.sftp o = None ->
  NavigateSFTP.list_files env a (o, created_clients) =
  (([NavigateSFTP.Out
       "Failed to list files: 'NoneType' object has no attribute 'listdir'"],
    Ok []), (o, created_clients)) /\
  NavigateSFTP.download_file env a b (o, created_clients) =
  (([NavigateSFTP.Out
       "Failed to download file: 'NoneType' object has no attribute 'get'"],
    Ok tt), (o, created_clients)) /\
  NavigateSFTP.upload_file env a b (o, created_clients) =
  (([NavigateSFTP.Out
       "Failed to upload file: 'NoneType' object has no attribute 'put'"],
    Ok tt), (o, created_clients)).
Proof.
  intros Hnone.
  unfold NavigateSFTP.list_files, NavigateSFTP.download_file,
    NavigateSFTP.upload_file, stry, sbind, NavigateSFTP.self. simpl.
  rewrite Hnone. repeat split.
Qed.

Lemma unconnected_operations_fail_softly_witness :
  NavigateSFTP.list_files stuck_channel "."
    (NavigateSFTP.init "sftp.example.org" "user" "id_rsa", O) =
  (([NavigateSFTP.Out
       "Failed to list files: 'NoneType' object has no attribute 'listdir'"],
    Ok []), (NavigateSFTP.init "sftp.example.org" "user" "id_rsa", O)).
Proof.
  apply (unconnected_operations_fail_softly stuck_channel
           (NavigateSFTP.init "sftp.example.org" "user" "id_rsa") O "." ".").
  reflexivity.
Defined.

(** [connect], case by case. *)
Lemma connect_cases env o n :
  NavigateSFTP.connect env (o, n) =
  let with_client :=
    {| NavigateSFTP.host := NavigateSFTP.host o;
       NavigateSFTP.username := NavigateSFTP.username o;
       NavigateSFTP.private_key_path := NavigateSFTP.private_key_path o;
       NavigateSFTP.client := Some n;
       NavigateSFTP.sftp := NavigateSFTP.sftp o |} in
  let connected :=
    {| NavigateSFTP.host := NavigateSFTP.host o;
       NavigateSFTP.username := NavigateSFTP.username o;
       NavigateSFTP.private_key_path := NavigateSFTP.private_key_path o;
       NavigateSFTP.client := Some n;
       NavigateSFTP.sftp := Some n |} in
  let load := NavigateSFTP.LoadKey (NavigateSFTP.private_key_path o) in
  let dial :=
    NavigateSFTP.Connect n (NavigateSFTP.host o) (NavigateSFTP.username o) in
  match NavigateSFTP.RSAKey env (NavigateSFTP.private_key_path o) with
  | Raise e =>
      (([load; NavigateSFTP.Out ("Failed to connect: " ++ exn_msg e)], Ok tt),
       (o, n))
  | Ok key =>
      match NavigateSFTP.ssh_connect env n (NavigateSFTP.host o)
              (NavigateSFTP.username o) key with
      | Raise e =>
          (([load; NavigateSFTP.NewClient n; dial;
             NavigateSFTP.Out ("Failed to connect: " ++ exn_msg e)], Ok tt),
           (with_client, S n))
      | Ok _ =>
          match NavigateSFTP.open_sftp env n with
          | Raise e =>
              (([load; NavigateSFTP.NewClient n; dial;
                 NavigateSFTP.OpenSftp n;
                 NavigateSFTP.Out ("Failed to connect: " ++ exn_msg e)],
                Ok tt), (with_client, S n))
          | Ok _ =>
              (([load; NavigateSFTP.NewClient n; dial;
                 NavigateSFTP.OpenSftp n;
                 NavigateSFTP.Out "Connection successfully established."],
                Ok tt), (connected, S n))
          end
      end
  end.
Proof.
  cbv zeta.
  unfold NavigateSFTP.connect, stry, sbind, NavigateSFTP.self,
    NavigateSFTP.call, NavigateSFTP.new_client, NavigateSFTP.set_client,
    NavigateSFTP.set_sftp, NavigateSFTP.print, slift, sbind, emit, lift.
  simpl.
  destruct (NavigateSFTP.RSAKey env _) as [key | e]; simpl;
    [ | reflexivity ].
  destruct (NavigateSFTP.ssh_connect env n _ _ key) as [[] | e]; simpl;
    [ | reflexivity ].
  destruct (NavigateSFTP.open_sftp env n) as [[] | e]; reflexivity.
Qed.

(** X18. [connect] never raises and never closes anything.  Its three
    calls either all return or one of them is the first to raise.  It
    prints the success line, and nothing else, exactly when they all
    return, and it then holds the new client and a channel on it.  When
    a call raises, it prints the failure line with the message of that
    very exception, and nothing else; the channel of the object is as it
    was (a channel of an earlier connection stays), and the client is
    the new one unless the key itself failed to load. *)
Theorem connect_never_raises (env : NavigateSFTP.Paramiko)
    (o : NavigateSFTP.t) (created_clients : nat) :
  let run := NavigateSFTP.connect env (o, created_clients) in
  let steps := trace (fst run) in
  let o' := fst (snd run) in
  outcome (fst run) = Ok tt /\
  (forall id,
     ~ In (NavigateSFTP.CloseSftp id) steps /\
     ~ In (NavigateSFTP.CloseClient id) steps) /\
  (connects env o created_clients \/
   exists e replaced, connect_failure env o created_clients e replaced) /\
  (connects env o created_clients <->
   printed steps = ["Connection successfully established."]) /\
  (connects env o created_clients ->
   NavigateSFTP.client o' = Some created_clients /\
   NavigateSFTP.sftp o' = Some created_clients) /\
  (forall e replaced,
     connect_failure env o created_clients e replaced ->
     printed steps = ["Failed to connect: " ++ exn_msg e] /\
     NavigateSFTP.sftp o' = NavigateSFTP.sftp o /\
     NavigateSFTP.client o' =
     if replaced then Some created_clients else NavigateSFTP.client o).
Proof.
  cbv zeta. rewrite connect_cases. cbv zeta. unfold connects.
  destruct (NavigateSFTP.RSAKey env _) as [key | e] eqn:Ekey;
    [ destruct (NavigateSFTP.ssh_connect env _ _ _ key) as [[] | e] eqn:Econn;
      [ destruct (NavigateSFTP.open_sftp env _) as [[] | e] eqn:Eopen | ] | ];
    (split; [ reflexivity | ]);
    (split; [ intros id; split; intros H; in_cases H | ]).
  - (* the three calls return *)
    split; [ left; exists key; auto | ].
    split; [ split; [ reflexivity | intros _; exists key; auto ] | ].
    split; [ intros _; split; reflexivity | ].
    intros e' replaced Hf.
    destruct Hf as [e' H | key' e' H H' | key' e' H H' H'']; congruence.
  - (* the channel does not open *)
    split; [ right; exists e, true; eapply channel_failure; eassumption | ].
    split; [ split; [ intros (key' & _ & _ & H); congruence
                    | intros H; discriminate H ] | ].
    split; [ intros (key' & _ & _ & H); congruence | ].
    intros e' replaced Hf.
    destruct Hf as [e' H | key' e' H H' | key' e' H H' H'']; try congruence.
    assert (e' = e) by congruence. subst e'. repeat split.
  - (* the client does not connect *)
    split; [ right; exists e, true; eapply dial_failure; eassumption | ].
    split; [ split; [ intros (key' & H & H' & _); congruence
                    | intros H; discriminate H ] | ].
    split; [ intros (key' & H & H' & _); congruence | ].
    intros e' replaced Hf.
    destruct Hf as [e' H | key' e' H H' | key' e' H H' H'']; try congruence.
    assert (e' = e) by congruence. subst e'. repeat split.
  - (* the key does not load *)
    split; [ right; exists e, false; apply key_failure; exact Ekey | ].
    split; [ split; [ intros (key' & H & _); congruence
                    | intros H; discriminate H ] | ].
    split; [ intros (key' & H & _); congruence | ].
    intros e' replaced Hf.
    destruct Hf as [e' H | key' e' H H' | key' e' H H' H'']; try congruence.
    assert (e' = e) by congruence. subst e'. repeat split.
Qed.

(** [close], case by case. *)
Lemma close_cases env o n :
  NavigateSFTP.close env (o, n) =
  match NavigateSFTP.sftp o with
  | Some id =>
      match NavigateSFTP.sftp_close env id with
      | Raise e => (([NavigateSFTP.CloseSftp id], Raise e), (o, n))
      | Ok _ =>
          match NavigateSFTP.client o with
          | Some id' =>
              match NavigateSFTP.ssh_close env id' with
              | Raise e =>
                  (([NavigateSFTP.CloseSftp id; NavigateSFTP.CloseClient id'],
                    Raise e), (o, n))
              | Ok _ =>
                  (([NavigateSFTP.CloseSftp id; NavigateSFTP.CloseClient id';
                     NavigateSFTP.Out "Connection closed."], Ok tt), (o, n))
              end
          | None =>
              (([NavigateSFTP.CloseSftp id;
                 NavigateSFTP.Out "Connection closed."], Ok tt), (o, n))
          end
      end
  | None =>
      match NavigateSFTP.client o with
      | Some id' =>
          match NavigateSFTP.ssh_close env id' with
          | Raise e => (([NavigateSFTP.CloseClient id'], Raise e), (o, n))
          | Ok _ =>
              (([NavigateSFTP.CloseClient id';
                 NavigateSFTP.Out "Connection closed."], Ok tt), (o, n))
          end
      | None => (([NavigateSFTP.Out "Connection closed."], Ok tt), (o, n))
      end
  end.
Proof.
  unfold NavigateSFTP.close, sbind, NavigateSFTP.self, NavigateSFTP.call,
    NavigateSFTP.print, slift, sret, emit, lift, ret. simpl.
  destruct (NavigateSFTP.sftp o) as [id | ];
    [ destruct (NavigateSFTP.sftp_close env id) as [[] | e];
      [ | reflexivity ] | ];
    simpl;
    (destruct (NavigateSFTP.client o) as [id' | ];
     [ destruct (NavigateSFTP.ssh_close env id') as [[] | e] | ]);
    reflexivity.
Qed.

(** X19. [close] clears nothing: whatever happens, the object keeps the
    client and the channel it had.  So [list_files] on an object that
    was connected and then closed does not report a missing connection:
    it asks the closed channel for the listing. *)
Theorem close_keeps_the_handles (env : NavigateSFTP.Paramiko)
    (o : NavigateSFTP.t) (created_clients : nat) :
  snd (NavigateSFTP.close env (o, created_clients)) = (o, created_clients) /\
  forall id path,
    NavigateSFTP.sftp o = Some id ->
    exists rest,
      trace (fst (NavigateSFTP.list_files env path
                    (snd (NavigateSFTP.close env (o, created_clients))))) =
      NavigateSFTP.ListDir id path :: rest.
Proof.
  assert (Hsame : snd (NavigateSFTP.close env (o, created_clients))
                  = (o, created_clients)).
  { rewrite close_cases.
    destruct (NavigateSFTP.sftp o) as [id | ];
      [ destruct (NavigateSFTP.sftp_close env id) as [[] | e];
        [ | reflexivity ] | ];
      (destruct (NavigateSFTP.client o) as [id' | ];
       [ destruct (NavigateSFTP.ssh_close env id') as [[] | e] | ]);
      reflexivity. }
  split; [ exact Hsame | ].
  intros id path Hid. rewrite Hsame.
  unfold NavigateSFTP.list_files, stry, sbind, NavigateSFTP.self,
    NavigateSFTP.call, slift, sret, emit, lift. simpl. rewrite Hid. simpl.
  destruct (NavigateSFTP.listdir env id path) as [files | e]; simpl;
    eexists; reflexivity.
Qed.

(** X20. [close] has no handler and gives up at the first failure:
    when closing the channel raises, the exception leaves the method,
    the client is not closed, nothing is printed and the object keeps
    both handles. *)
Theorem failed_channel_close_leaves_client_open (env : NavigateSFTP.Paramiko)
    (o : NavigateSFTP.t) (created_clients id : nat) (e : exn) :
  NavigateSFTP.sftp o = Some id ->
  NavigateSFTP.sftp_close env id = Raise e ->
  NavigateSFTP.close env (o, created_clients) =
  (([NavigateSFTP.CloseSftp id], Raise e), (o, created_clients)).
Proof.
  intros Hid Hclose. rewrite close_cases, Hid, Hclose. reflexivity.
Qed.

Lemma failed_channel_close_leaves_client_open_witness :
  NavigateSFTP.close stuck_channel
    ({| NavigateSFTP.host := "sftp.example.org";
        NavigateSFTP.username := "user";
        NavigateSFTP.private_key_path := "id_rsa";
        NavigateSFTP.client := Some O;
        NavigateSFTP.sftp := Some O |}, 1%nat) =
  (([NavigateSFTP.CloseSftp O], Raise (Exn OSError "Socket is closed")),
   ({| NavigateSFTP.host := "sftp.example.org";
       NavigateSFTP.username := "user";
       NavigateSFTP.private_key_path := "id_rsa";
       NavigateSFTP.client := Some O;
       NavigateSFTP.sftp := Some O |}, 1%nat)).
Proof.
  apply failed_channel_close_leaves_client_open; reflexivity.
Defined.

(** ** [save_alerts_to_dataframe] *)

Lemma save_invalid (DF : Type) (empty_frame : DF)
    (DataFrame : value -> result DF)
    (column : DF -> string -> result (list value))
    (assign : DF -> list string -> list string -> DF)
    (str : value -> string) (response : value) :
  Alerts.invalid_response response = Ok true ->
  Alerts.save_alerts_to_dataframe DF empty_frame DataFrame column assign str
    response
  = (["Invalid or empty response data."], Ok empty_frame).
Proof.
  intros H. unfold Alerts.save_alerts_to_dataframe. rewrite H.
  reflexivity.
Qed.

Lemma get_alerts_on_failure (requests_get : NavigateAPI.Requests)
    (self : NavigateAPI.t) (kwargs : list (string * string)) :
  NavigateAPI.blank (NavigateAPI.username self)
  || NavigateAPI.blank (NavigateAPI.api_key self) = true \/
  (exists exc,
     request_failure
       (requests_get (NavigateAPI.base_url self ++ "/v3/alerts") kwargs
          (NavigateAPI.username self, NavigateAPI.api_key self)) exc) ->
  exists line,
    Endpoints.get_alerts requests_get self kwargs = ([line], Ok VNone).
Proof.
  intros Hbad. unfold Endpoints.get_alerts.
  destruct (NavigateAPI.blank (NavigateAPI.username self)
            || NavigateAPI.blank (NavigateAPI.api_key self)) eqn:Hb.
  - eexists. apply get_json_blank. exact Hb.
  - destruct Hbad as [Hbad | [exc Hfail]]; [ discriminate | ].
    pose proof (request_failure_caught _ _ Hfail) as Hc.
    eexists. rewrite get_json_cases by exact Hb.
    destruct Hfail as [e Ha _ | r e Ha Hs | r e Ha Hs Hj _];
      rewrite Ha; simpl; rewrite ?Hs; simpl; rewrite ?Hj; rewrite Hc;
      reflexivity.
Qed.

(** X21. The failure of [get_alerts] ends as an empty frame.  When the
    credentials are blank or the request fails with a
    [RequestException], [get_alerts] prints one line and returns
    [None]; [save_alerts_to_dataframe] on that result prints that the
    response is invalid or empty and returns the empty frame, whatever
    [pandas] would do with a frame: nothing is raised on the way, and
    the caller cannot tell the failure from a service without
    alerts. *)
Theorem failed_alerts_give_empty_frame (DF : Type) (empty_frame : DF)
    (DataFrame : value -> result DF)
    (column : DF -> string -> result (list value))
    (assign : DF -> list string -> list string -> DF)
    (str : value -> string)
    (requests_get : NavigateAPI.Requests)
    (self : NavigateAPI.t) (kwargs : list (string * string)) :
  NavigateAPI.blank (NavigateAPI.username self)
  || NavigateAPI.blank (NavigateAPI.api_key self) = true \/
  (exists exc,
     request_failure
       (requests_get (NavigateAPI.base_url self ++ "/v3/alerts") kwargs
          (NavigateAPI.username self, NavigateAPI.api_key self)) exc) ->
  exists line,
    Endpoints.get_alerts requests_get self kwargs = ([line], Ok VNone) /\
    bindM (Endpoints.get_alerts requests_get self kwargs)
      (Alerts.save_alerts_to_dataframe DF empty_frame DataFrame column
         assign str)
    = ([line; "Invalid or empty response data."], Ok empty_frame).
Proof.
  intros Hbad.
  destruct (get_alerts_on_failure requests_get self kwargs Hbad)
    as [line Hget].
  exists line. split; [ exact Hget | ].
  rewrite Hget. unfold bindM. rewrite save_invalid by reflexivity.
  reflexivity.
Qed.

Lemma failed_alerts_give_empty_frame_witness :
  exists line,
    Endpoints.get_alerts unauthorized sample_api [] = ([line], Ok VNone) /\
    bindM (Endpoints.get_alerts unauthorized sample_api [])
      (Alerts.save_alerts_to_dataframe (list value) []
         (fun v => iter v) (fun _ _ => Ok []) (fun df _ _ => df)
         (fun _ => EmptyString))
    = ([line; "Invalid or empty response data."], Ok []).
Proof.
  apply failed_alerts_give_empty_frame.
  right. apply (http_error_status_fails
                  {| NavigateAPI.status_code := 401;
                     NavigateAPI.reason := "Unauthorized";
                     NavigateAPI.url := "https://gsu.campus.eab.com/api/v3/alerts";
                     NavigateAPI.json := Ok VNone |}).
  simpl. lia.
Defined.

(** X22. On a response that is a mapping, the test of
    [save_alerts_to_dataframe] turns away a missing [data] and a
    [data] mapping without [alerts]: the line is printed and the empty
    frame returned.  It does not turn away a [data] that is [None], a
    number or a boolean: there the test itself raises a [TypeError],
    nothing is printed and no frame is returned. *)
Theorem alerts_guard_on_mappings (DF : Type) (empty_frame : DF)
    (DataFrame : value -> result DF)
    (column : DF -> string -> result (list value))
    (assign : DF -> list string -> list string -> DF)
    (str : value -> string)
    (entries : list (string * value)) :
  (assoc "data" entries = None ->
   Alerts.save_alerts_to_dataframe DF empty_frame DataFrame column assign
     str (VDict entries)
   = (["Invalid or empty response data."], Ok empty_frame)) /\
  (forall data,
     assoc "data" entries = Some (VDict data) ->
     assoc "alerts" data = None ->
     Alerts.save_alerts_to_dataframe DF empty_frame DataFrame column assign
       str (VDict entries)
     = (["Invalid or empty response data."], Ok empty_frame)) /\
  (forall data,
     assoc "data" entries = Some data ->
     scalar data = true ->
     Alerts.save_alerts_to_dataframe DF empty_frame DataFrame column assign
       str (VDict entries)
     = ([], Raise (Exn TypeError
                       ("argument of type '" ++ type_name data
                        ++ "' is not iterable")))).
Proof.
  split; [ | split ].
  - intros Hdata. apply save_invalid.
    unfold Alerts.invalid_response, contains.
    destruct (negb (truthy (VDict entries))); [ reflexivity | ].
    rewrite Hdata. reflexivity.
  - intros data Hdata Halerts. apply save_invalid.
    unfold Alerts.invalid_response, contains, Alerts.getitem.
    destruct (negb (truthy (VDict entries))); [ reflexivity | ].
    rewrite Hdata. simpl. rewrite Halerts. reflexivity.
  - intros data Hdata Hscalar.
    unfold Alerts.save_alerts_to_dataframe, Alerts.invalid_response,
      contains, Alerts.getitem.
    destruct entries as [ | entry rest]; [ discriminate | ].
    cbn [truthy negb]. rewrite Hdata.
    destruct data; try discriminate Hscalar; reflexivity.
Qed.

(** ** The files of a run

    [datetime] turns an ordinal into a year, a month and a day
    ([_ord2ymd]) and back ([_ymd2ord]); the second undoes the first,
    which makes the text of a day name the day. *)

(** The year of a day, from the numbers of whole 400-, 100-, 4- and
    1-year cycles before it. *)
Lemma cycles_year n400 n100 n4 n1 :
  0 <= n100 <= 3 -> 0 <= n4 <= 24 -> 0 <= n1 <= 3 ->
  let year := n400 * 400 + 1 + n100 * 100 + n4 * 4 + n1 in
  days_before_year year
  = n400 * 146097 + n100 * 36524 + n4 * 1461 + n1 * 365 /\
  is_leap year = (n1 =? 3) && (negb (n4 =? 24) || (n100 =? 3)).
Proof.
  intros H100 H4 H1 year. subst year.
  unfold days_before_year, is_leap. cbv zeta. split.
  - Z.to_euclidean_division_equations. lia.
  - assert (E4 : forall y, y = n400 * 400 + 1 + n100 * 100 + n4 * 4 + n1 ->
                  (y mod 4 = 0 <-> n1 = 3))
      by (intros y ->; Z.to_euclidean_division_equations; lia).
    assert (E100 : forall y, y = n400 * 400 + 1 + n100 * 100 + n4 * 4 + n1 ->
                  (y mod 100 = 0 <-> n1 = 3 /\ n4 = 24))
      by (intros y ->; Z.to_euclidean_division_equations; lia).
    assert (E400 : forall y, y = n400 * 400 + 1 + n100 * 100 + n4 * 4 + n1 ->
                  (y mod 400 = 0 <-> n1 = 3 /\ n4 = 24 /\ n100 = 3))
      by (intros y ->; Z.to_euclidean_division_equations; lia).
    specialize (E4 _ eq_refl). specialize (E100 _ eq_refl).
    specialize (E400 _ eq_refl).
    destruct (_ mod 4 =? 0) eqn:B4; destruct (_ mod 100 =? 0) eqn:B100;
      destruct (_ mod 400 =? 0) eqn:B400;
      destruct (n1 =? 3) eqn:C1; destruct (n4 =? 24) eqn:C4;
      destruct (n100 =? 3) eqn:C100;
      rewrite ?Z.eqb_eq, ?Z.eqb_neq in *; simpl; try reflexivity;
      exfalso; lia.
Qed.

Ltac month_values :=
  repeat match goal with
  | |- context [table ?l ?k] =>
      let v := eval vm_compute in (table l k) in change (table l k) with v
  | |- context [2 <? ?k] =>
      let v := eval vm_compute in (2 <? k) in change (2 <? k) with v
  | |- context [?k - 1 =? 2] =>
      let v := eval vm_compute in (k - 1 =? 2) in change (k - 1 =? 2) with v
  end.

(** The month and the day within a year, from the day of the year. *)
Lemma day_of_year_split (leapyear : bool) (n year : Z) :
  0 <= n < 365 + (if leapyear then 1 else 0) ->
  let month := Z.shiftr (n + 50) 5 in
  let preceding :=
    table DAYS_BEFORE_MONTH month
    + (if (2 <? month) && leapyear then 1 else 0) in
  let found :=
    if n <? preceding then
      let month := month - 1 in
      let preceding :=
        preceding
        - (table DAYS_IN_MONTH month
           + (if (month =? 2) && leapyear then 1 else 0)) in
      (year, month, n - preceding + 1)
    else (year, month, n - preceding + 1) in
  exists m d,
    found = (year, m, d) /\ 1 <= m <= 12 /\ 1 <= d <= 31 /\
    table DAYS_BEFORE_MONTH m + (if (2 <? m) && leapyear then 1 else 0) + d
    = n + 1.
Proof.
  intros Hn. cbv zeta.
  rewrite Z.shiftr_div_pow2 by lia. change (2 ^ 5) with 32.
  assert (Hm : 1 <= (n + 50) / 32 <= 12)
    by (destruct leapyear; Z.to_euclidean_division_equations; lia).
  assert (Hr : 32 * ((n + 50) / 32) <= n + 50 < 32 * ((n + 50) / 32) + 32)
    by (Z.to_euclidean_division_equations; lia).
  set (month := (n + 50) / 32) in *.
  apply month_cases in Hm. clearbody month.
  repeat (destruct Hm as [-> | Hm]); try subst month;
    month_values; destruct leapyear; cbn [andb]; cbv beta iota zeta;
    match goal with
    | |- context [?a <? ?b] => destruct (Z.ltb_spec a b)
    end; cbv beta iota zeta; do 2 eexists;
    (split; [ reflexivity | ]);
    month_values; cbn [andb]; cbv beta iota; lia.
Qed.

Lemma ord2ymd_round_trip n :
  1 <= n ->
  exists y m d,
    ord2ymd n = (y, m, d) /\ ymd2ord y m d = n /\
    1 <= y /\ 1 <= m <= 12 /\ 1 <= d <= 31.
Proof.
  intros Hn. unfold ord2ymd. cbv zeta.
  change DI400Y with 146097. change DI100Y with 36524. change DI4Y with 1461.
  set (n400 := (n - 1) / 146097).
  set (r1 := (n - 1) mod 146097).
  set (n100 := r1 / 36524).
  set (r2 := r1 mod 36524).
  set (n4 := r2 / 1461).
  set (r3 := r2 mod 1461).
  set (n1 := r3 / 365).
  set (r4 := r3 mod 365).
  assert (H400 : 0 <= n400 /\ n - 1 = 146097 * n400 + r1 /\ 0 <= r1 < 146097)
    by (subst n400 r1; Z.to_euclidean_division_equations; lia).
  assert (H100 : 0 <= n100 <= 4 /\ r1 = 36524 * n100 + r2 /\ 0 <= r2 < 36524)
    by (subst n100 r2; Z.to_euclidean_division_equations; lia).
  assert (H4 : 0 <= n4 <= 24 /\ r2 = 1461 * n4 + r3 /\ 0 <= r3 < 1461)
    by (subst n4 r3; Z.to_euclidean_division_equations; lia).
  assert (H1 : 0 <= n1 <= 4 /\ r3 = 365 * n1 + r4 /\ 0 <= r4 < 365)
    by (subst n1 r4; Z.to_euclidean_division_equations; lia).
  clearbody n400 r1 n100 r2 n4 r3 n1 r4.
  destruct (Z.eqb_spec n1 4) as [E1 | E1];
    [ | destruct (Z.eqb_spec n100 4) as [E100 | E100] ]; cbn [orb].
  - (* the last day of a four-year cycle *)
    destruct (cycles_year n400 n100 n4 3) as [Hdby Hleap]; try lia.
    exists (n400 * 400 + 1 + n100 * 100 + n4 * 4 + n1 - 1), 12, 31.
    split; [ reflexivity | ].
    replace (n400 * 400 + 1 + n100 * 100 + n4 * 4 + n1 - 1)
      with (n400 * 400 + 1 + n100 * 100 + n4 * 4 + 3) by lia.
    unfold ymd2ord, days_before_month. rewrite Hdby, Hleap.
    month_values.
    destruct (Z.eqb_spec n4 24); destruct (Z.eqb_spec n100 3);
      cbn [andb orb negb Z.eqb Pos.eqb]; cbv beta iota; lia.
  - (* the last day of a 400-year cycle *)
    destruct (cycles_year n400 3 24 3) as [Hdby Hleap]; try lia.
    exists (n400 * 400 + 1 + n100 * 100 + n4 * 4 + n1 - 1), 12, 31.
    split; [ reflexivity | ].
    replace (n400 * 400 + 1 + n100 * 100 + n4 * 4 + n1 - 1)
      with (n400 * 400 + 1 + 3 * 100 + 24 * 4 + 3) by lia.
    unfold ymd2ord, days_before_month. rewrite Hdby, Hleap.
    month_values. cbn [andb orb negb Z.eqb Pos.eqb]. cbv beta iota. lia.
  - destruct (cycles_year n400 n100 n4 n1) as [Hdby Hleap]; try lia.
    set (leapyear := (n1 =? 3) && (negb (n4 =? 24) || (n100 =? 3))) in *.
    destruct (day_of_year_split leapyear r4
                (n400 * 400 + 1 + n100 * 100 + n4 * 4 + n1))
      as (m & d & Hfound & Hm & Hd & Hdoy).
    { destruct leapyear; lia. }
    cbv zeta in Hfound. exists (n400 * 400 + 1 + n100 * 100 + n4 * 4 + n1), m, d.
    split; [ exact Hfound | ].
    unfold ymd2ord, days_before_month. rewrite Hdby, Hleap.
    repeat split; lia.
Qed.


(** *** The dates of a run as text *)

Lemma digit_of_digit_char x : 0 <= x <= 9 -> digit (digit_char x) = Some x.
Proof.
  intros H.
  assert (Hc : x = 0 \/ x = 1 \/ x = 2 \/ x = 3 \/ x = 4 \/ x = 5 \/ x = 6
               \/ x = 7 \/ x = 8 \/ x = 9) by lia.
  repeat (destruct Hc as [-> | Hc]); try subst x; reflexivity.
Qed.

Lemma digit_char_inj a b :
  0 <= a <= 9 -> 0 <= b <= 9 -> digit_char a = digit_char b -> a = b.
Proof.
  intros Ha Hb H.
  pose proof (digit_of_digit_char a Ha) as Ea.
  pose proof (digit_of_digit_char b Hb) as Eb.
  rewrite H in Ea. congruence.
Qed.

Lemma all_digits_pad2 n : all_digits (pad2 n) = true.
Proof.
  unfold pad2. cbn [all_digits].
  rewrite !digit_of_digit_char
    by (Z.to_euclidean_division_equations; lia).
  reflexivity.
Qed.

Lemma all_digits_app s : forall t,
  all_digits s = true -> all_digits t = true -> all_digits (s ++ t) = true.
Proof.
  induction s as [ | c s IH]; intros t Hs Ht; simpl in *; [ exact Ht | ].
  destruct (digit c); [ auto | discriminate ].
Qed.

Lemma all_digits_pad4 n : all_digits (pad4 n) = true.
Proof. apply all_digits_app; apply all_digits_pad2. Qed.

Lemma pad2_inj a b :
  0 <= a < 100 -> 0 <= b < 100 -> pad2 a = pad2 b -> a = b.
Proof.
  intros Ha Hb H. unfold pad2 in H.
  injection H as H1 H2.
  assert (E1 : a / 10 mod 10 = b / 10 mod 10)
    by (apply digit_char_inj; [ | | exact H1 ];
        Z.to_euclidean_division_equations; lia).
  assert (E2 : a mod 10 = b mod 10)
    by (apply digit_char_inj; [ | | exact H2 ];
        Z.to_euclidean_division_equations; lia).
  clear H1 H2. Z.to_euclidean_division_equations; lia.
Qed.

Lemma pad4_inj a b :
  0 <= a < 10000 -> 0 <= b < 10000 -> pad4 a = pad4 b -> a = b.
Proof.
  intros Ha Hb H. unfold pad4 in H.
  assert (H1 : pad2 (a / 100) = pad2 (b / 100) /\
               pad2 (a mod 100) = pad2 (b mod 100)).
  { unfold pad2 in *. cbn [append] in H. injection H as -> -> -> ->. auto. }
  destruct H1 as [H1 H2]. clear H.
  assert (E1 : a / 100 = b / 100)
    by (apply pad2_inj; [ | | exact H1 ];
        Z.to_euclidean_division_equations; lia).
  assert (E2 : a mod 100 = b mod 100)
    by (apply pad2_inj; [ | | exact H2 ];
        Z.to_euclidean_division_equations; lia).
  clear H1 H2. Z.to_euclidean_division_equations; lia.
Qed.

Lemma year_of_ordinal y m d :
  1 <= m <= 12 -> 1 <= d -> ymd2ord y m d <= MAXORDINAL -> y <= 9999.
Proof.
  intros Hm Hd Hn.
  destruct (Z_le_gt_dec y 9999) as [ | Hy]; [ assumption | exfalso ].
  pose proof (days_before_year_mono 10000 y ltac:(lia)) as Hy'.
  change (days_before_year 10000) with 3652059 in Hy'.
  assert (0 <= days_before_month y m).
  { unfold days_before_month. apply month_cases in Hm.
    repeat (destruct Hm as [-> | Hm]); try subst m; month_values;
      destruct (_ && _); lia. }
  unfold ymd2ord, MAXORDINAL in Hn. lia.
Qed.

(** The text of a representable day: its month and day on two digits
    and its year on four, and the day they name. *)
Lemma strftime_text t :
  representable t ->
  exists y m d,
    strftime_mdY t = date_text (pad2 m) (pad2 d) (pad4 y) /\
    ymd2ord y m d = toordinal t /\
    1 <= y <= 9999 /\ 1 <= m <= 12 /\ 1 <= d <= 31.
Proof.
  intros [Hlo Hhi].
  destruct (ord2ymd_round_trip (toordinal t) Hlo)
    as (y & m & d & Hymd & Hord & Hy & Hm & Hd).
  exists y, m, d. unfold strftime_mdY. rewrite Hymd.
  split; [ reflexivity | ]. split; [ exact Hord | ].
  pose proof (year_of_ordinal y m d Hm ltac:(lia) ltac:(lia)). lia.
Qed.

Lemma artifact_path_text start_date end_date :
  artifact_path start_date end_date =
  "data/appointments/apmts_" ++ replace_char "/" "_" start_date ++ "_"
    ++ replace_char "/" "_" end_date ++ ".csv".
Proof. reflexivity. Qed.

(** The file of a day names the day: two representable days whose
    artifacts have the same path are the same day. *)
Lemma artifact_path_names_the_day a b a' b' :
  representable a -> representable a' ->
  representable b -> representable b' ->
  artifact_path (strftime_mdY a) (strftime_mdY b) =
  artifact_path (strftime_mdY a') (strftime_mdY b') ->
  toordinal a = toordinal a'.
Proof.
  intros Ha Ha' Hb Hb' H.
  destruct (strftime_text a Ha) as (y & m & d & Et & <- & Hy & Hm & Hd).
  destruct (strftime_text a' Ha') as (y' & m' & d' & Et' & <- & Hy' & Hm' & Hd').
  destruct (strftime_text b Hb) as (yb & mb & db & Eb & _).
  destruct (strftime_text b' Hb') as (yb' & mb' & db' & Eb' & _).
  rewrite !artifact_path_text, Et, Et', Eb, Eb' in H.
  rewrite !replace_slash_date in H
    by first [ apply all_digits_pad2 | apply all_digits_pad4 ].
  apply append_inj_l in H.
  assert (Hfields : pad2 m = pad2 m' /\ pad2 d = pad2 d' /\ pad4 y = pad4 y').
  { unfold safe_text, pad4, pad2 in *. cbn [append] in H.
    injection H as -> -> -> -> -> -> -> ->. auto. }
  destruct Hfields as (Em & Ed & Ey).
  apply pad2_inj in Em; [ | lia | lia ].
  apply pad2_inj in Ed; [ | lia | lia ].
  apply pad4_inj in Ey; [ | lia | lia ].
  congruence.
Qed.

(** The days of a run, overflow or not: one-day ranges laid end to end
    from the start, none of them past the last day of the calendar. *)
Lemma day_ranges_shape k : forall start stop,
  representable start ->
  MAXORDINAL - toordinal start <= Z.of_nat k ->
  exists n,
    fst (day_ranges start stop) = days_from start n /\
    toordinal start + Z.of_nat n <= MAXORDINAL.
Proof.
  induction k as [ | k IH]; intros start stop Hrep Hk;
    pose proof Hrep as [Hlo Hhi];
    (destruct (Z_lt_dec start stop) as [Hlt | Hge];
     [ | exists O; rewrite day_ranges_done by lia; split;
         [ reflexivity | lia ] ]).
  - exists O. rewrite day_ranges_overflow by lia. split; [ reflexivity | lia ].
  - destruct (Z_lt_dec (toordinal start) MAXORDINAL) as [Hin | Hout].
    + destruct (IH (start + DAY) stop) as (n & Hn & Hmax).
      * unfold representable. rewrite toordinal_shift. lia.
      * rewrite toordinal_shift. lia.
      * rewrite toordinal_shift in Hmax.
        exists (S n). rewrite day_ranges_step by lia.
        destruct (day_ranges (start + DAY) stop) as [rest err].
        simpl in Hn. subst rest. split; [ reflexivity | lia ].
    + exists O. rewrite day_ranges_overflow by lia.
      split; [ reflexivity | lia ].
Qed.

Lemma toordinal_days t i :
  toordinal (t + Z.of_nat i * DAY) = toordinal t + Z.of_nat i.
Proof. unfold toordinal. apply Z.div_add. pose proof DAY_pos. lia. Qed.

(** X23. No file is written by two tasks of a run.  Whatever the range
    (whole days or not, and also when the loop stops on the overflow of
    the calendar), two different day ranges that [main] submits never
    create the same file: the texts of different days differ, so do the
    artifact names made from them, whatever the service returns and
    whatever the file system does. *)
Theorem days_write_distinct_files (disk : Disk) (connector : Connector)
    (start stop : datetime) (i j : nat) (r r' : datetime * datetime)
    (path : string) (rows rows' : list FlatRow) :
  representable start ->
  nth_error (fst (day_ranges start stop)) i = Some r ->
  nth_error (fst (day_ranges start stop)) j = Some r' ->
  i <> j ->
  created (submit disk connector r) path rows ->
  ~ created (submit disk connector r') path rows'.
Proof.
  intros Hrep Hi Hj Hij Hr Hr'. apply Hij. clear Hij.
  destruct (day_ranges_shape (Z.to_nat (MAXORDINAL - toordinal start))
              start stop Hrep ltac:(lia)) as (n & Hn & Hmax).
  rewrite Hn in Hi, Hj.
  apply nth_error_days_from in Hi as [Hi ->].
  apply nth_error_days_from in Hj as [Hj ->].
  unfold submit in Hr, Hr'.
  apply day_task_created in Hr as [-> _].
  apply day_task_created in Hr' as [Hpath _].
  destruct Hrep as [Hlo Hhi].
  apply artifact_path_names_the_day in Hpath.
  - rewrite !toordinal_days in Hpath. lia.
  - unfold representable. rewrite toordinal_days. lia.
  - unfold representable. rewrite toordinal_days. lia.
  - unfold representable. rewrite toordinal_shift, toordinal_days. lia.
  - unfold representable. rewrite toordinal_shift, toordinal_days. lia.
Qed.

Lemma days_write_distinct_files_witness :
  ~ created
      (submit (fun _ _ => working_fs) busy_connector
         (738947 * DAY, 738948 * DAY))
      "data/appointments/apmts_03_01_2024_03_02_2024.csv"
      [row_of [("id", VInt 1)]].
Proof.
  apply (days_write_distinct_files (fun _ _ => working_fs) busy_connector
           (738946 * DAY) (738948 * DAY) 0 1
           (738946 * DAY, 738947 * DAY) (738947 * DAY, 738948 * DAY)
           "data/appointments/apmts_03_01_2024_03_02_2024.csv"
           [row_of [("id", VInt 1)]] [row_of [("id", VInt 1)]]).
  - vm_compute. split; discriminate.
  - vm_compute. reflexivity.
  - vm_compute. reflexivity.
  - discriminate.
  - vm_compute. auto 6.
Defined.
